(** * portainer_to_k8s: the transformation engine

    A shallow embedding of the pure functions of [portainer_to_k8s.py]
    ([sanitize_name], [transform_env], [build_volumes], [collect_ports],
    [build_k8s_documents]) together with the Python built-ins they call,
    followed by the properties the specification states about them.

    Strings are [string]s over [ascii]; a character stands for the code
    point of the same number.  Exceptions are results of type [result]. *)

From Stdlib Require Import String Ascii List ZArith Lia Bool DecimalString DecimalNat.
From Equations Require Import Equations.
From stdpp Require Import base option list strings.
Import ListNotations.
Local Open Scope string_scope.
Local Open Scope list_scope.

(** ** Exceptions *)

Inductive exn := ValueError | KeyError | TypeError.

Inductive result (A : Type) :=
| Ok (a : A)
| Raise (e : exn).
Arguments Ok {A} a.
Arguments Raise {A} e.

#[global] Instance result_ret : MRet result := fun A a => Ok a.
#[global] Instance result_bind : MBind result := fun A B f m =>
  match m with
  | Ok a => f a
  | Raise e => Raise e
  end.

(** ** The Python built-ins the engine uses *)

Module Py.

Definition code (c : ascii) : N := N_of_ascii c.

Definition between (lo hi c : ascii) : bool :=
  ((code lo <=? code c) && (code c <=? code hi))%N.

Definition is_upper (c : ascii) : bool := between "A" "Z" c.
Definition is_lower (c : ascii) : bool := between "a" "z" c.
Definition is_digit (c : ascii) : bool := between "0" "9" c.

(** The accented capitals and small letters of the upper half of the
    alphabet: 192..222 and 224..254, where 215 and 247 are signs. *)
Definition is_upper_hi (c : ascii) : bool :=
  between "192" "222" c && negb (code c =? 215)%N.
Definition is_lower_hi (c : ascii) : bool :=
  between "224" "254" c && negb (code c =? 247)%N.

(** [str.lower], letter by letter: a capital moves by 32, every other
    character is kept. *)
Definition lower_char (c : ascii) : ascii :=
  if is_upper c || is_upper_hi c then ascii_of_N (code c + 32) else c.

(** [str.upper], letter by letter: a small letter moves by 32, the sharp s
    (223) becomes the two letters [SS], every other character is kept.
    Two small letters, 181 and 255, have capitals that are not characters
    of this alphabet; [has_capital] tells them apart, and [upper_char]
    is [str.upper] on every character that has it. *)
Definition has_capital (c : ascii) : bool :=
  negb ((code c =? 181) || (code c =? 255))%N.

Definition upper_char (c : ascii) : string :=
  if (code c =? 223)%N then "SS"
  else String (if is_lower c || is_lower_hi c then ascii_of_N (code c - 32) else c)
              EmptyString.

Fixpoint map_chars (f : ascii -> ascii) (s : string) : string :=
  match s with
  | EmptyString => EmptyString
  | String c t => String (f c) (map_chars f t)
  end.

Definition lower : string -> string := map_chars lower_char.

Fixpoint upper (s : string) : string :=
  match s with
  | EmptyString => EmptyString
  | String c t => upper_char c +:+ upper t
  end.

(** [c in chars] for a character [c]. *)
Fixpoint char_in (chars : string) (c : ascii) : bool :=
  match chars with
  | EmptyString => false
  | String d t => Ascii.eqb c d || char_in t c
  end.

(** The rest of [s] after its longest prefix of characters in class [P]:
    where a greedy [P+] stops. *)
Fixpoint skip_while (P : ascii -> bool) (s : string) : string :=
  match s with
  | EmptyString => s
  | String c t => if P c then skip_while P t else s
  end.

(** [re.sub(P+, repl, s)] for a character class [P]: scanning from the
    left, a position where [P+] matches consumes the whole run greedily
    and emits [repl]; any other character is copied. *)
Equations? re_sub_plus (P : ascii -> bool) (repl : string) (s : string) : string
  by wf (String.length s) lt :=
  re_sub_plus P repl EmptyString := EmptyString;
  re_sub_plus P repl (String c t) with P c => {
    | true := repl +:+ re_sub_plus P repl (skip_while P t);
    | false := String c (re_sub_plus P repl t) }.
Proof.
  all: simpl; try lia.
  assert (Hle : forall u, String.length (skip_while P u) <= String.length u).
  { induction u as [|d u IH]; simpl; [lia|]. destruct (P d); simpl; lia. }
  specialize (Hle t). lia.
Qed.

(** Stripping from the left is [skip_while]; [drop_end] strips the
    characters of class [P] from the right. *)
Fixpoint drop_end (P : ascii -> bool) (s : string) : string :=
  match s with
  | EmptyString => EmptyString
  | String c t =>
      match drop_end P t with
      | EmptyString => if P c then EmptyString else String c EmptyString
      | t' => String c t'
      end
  end.

Definition strip_if (P : ascii -> bool) (s : string) : string :=
  drop_end P (skip_while P s).

(** [s.strip(chars)]: leading and trailing characters that occur in
    [chars] are removed. *)
Definition strip (chars : string) (s : string) : string :=
  strip_if (char_in chars) s.

(** [s.split(sep)] and [s.split(sep, 1)] for a one-character separator. *)
Fixpoint split (sep : ascii) (s : string) : list string :=
  match s with
  | EmptyString => [EmptyString]
  | String c t =>
      if Ascii.eqb c sep then EmptyString :: split sep t
      else match split sep t with
           | h :: r => String c h :: r
           | [] => [String c EmptyString]
           end
  end.

Fixpoint split1 (sep : ascii) (s : string) : list string :=
  match s with
  | EmptyString => [EmptyString]
  | String c t =>
      if Ascii.eqb c sep then [EmptyString; t]
      else match split1 sep t with
           | h :: r => String c h :: r
           | [] => [String c EmptyString]
           end
  end.

(** [a, b = parts]: unpacking into two names raises [ValueError] unless
    there are exactly two parts. *)
Definition unpack2 (parts : list string) : result (string * string) :=
  match parts with
  | [a; b] => Ok (a, b)
  | _ => Raise ValueError
  end.

(** The white space [int] drops around a literal: 9..13, 32, 133, 160. *)
Definition is_space (c : ascii) : bool :=
  between "009" "013" c || (code c =? 32)%N
  || (code c =? 133)%N || (code c =? 160)%N.

Definition digit_val (c : ascii) : Z := Z.of_N (code c - code "0").

(** The digits of a base-10 literal: at least one digit, single
    underscores allowed between digits only. *)
Fixpoint digits (acc : Z) (after_digit : bool) (s : string) : option Z :=
  match s with
  | EmptyString => if after_digit then Some acc else None
  | String c t =>
      if is_digit c then digits (10 * acc + digit_val c) true t
      else if Ascii.eqb c "_" then
        if after_digit then digits acc false t else None
      else None
  end.

(** [int(s)]: surrounding white space is dropped, then an optional sign,
    then the digits; anything else raises [ValueError].  The interpreter's
    adjustable cap on the length of a literal is not part of the model. *)
Definition int (s : string) : result Z :=
  let body := strip_if is_space s in
  match body with
  | String "+" t => from_option Ok (Raise ValueError) (digits 0 false t)
  | String "-" t => from_option (fun z => Ok (- z)%Z) (Raise ValueError) (digits 0 false t)
  | _ => from_option Ok (Raise ValueError) (digits 0 false body)
  end.

(** [str(n)] for a natural number, as an f-string prints an index. *)
Definition str (n : nat) : string := NilEmpty.string_of_uint (Nat.to_uint n).

End Py.

(** ** Documents

    The engine builds nested dicts and lists.  A dict keeps its keys in
    insertion order, so it is an association list. *)

#[warnings="-register-all"]
Inductive value :=
| VBool (b : bool)
| VInt (z : Z)
| VStr (s : string)
| VList (l : list value)
| VDict (d : list (string * value)).

Abbreviation dict := (list (string * value)).

(** [d[k] = v]: an existing key keeps its place, a new key goes last. *)
Fixpoint dict_set (k : string) (v : value) (d : dict) : dict :=
  match d with
  | [] => [(k, v)]
  | (k', v') :: r =>
      if String.eqb k' k then (k, v) :: r else (k', v') :: dict_set k v r
  end.

Fixpoint dict_get (k : string) (d : dict) : option value :=
  match d with
  | [] => None
  | (k', v') :: r => if String.eqb k' k then Some v' else dict_get k r
  end.

(** [doc[p1]...[pn][k] = v] on nested dicts. *)
Fixpoint set_in (path : list string) (k : string) (v : value) (doc : value) : value :=
  match doc with
  | VDict d =>
      match path with
      | [] => VDict (dict_set k v d)
      | p :: ps =>
          VDict (map (fun kv => if String.eqb (fst kv) p
                                then (fst kv, set_in ps k v (snd kv)) else kv) d)
      end
  | _ => doc
  end.

(** [doc[p1]...[pn]], when every key is there. *)
Fixpoint get_in (path : list string) (doc : value) : option value :=
  match path with
  | [] => Some doc
  | p :: ps =>
      match doc with
      | VDict d => dict_get p d ≫= get_in ps
      | _ => None
      end
  end.

(** ** The container-inspection document

    Every key the engine reads is a field; [None] is a key that is absent.
    A key that is present holds a value of its type: a document in which a
    section is present with the value null is not a value of these
    records. *)

Record binding := { HostPort : option string }.

(** The exposure map in iteration order; an exposed port that is not
    published has no binding list ([None]). *)
Abbreviation port_map := (list (string * option (list binding))).

Record mount := {
  m_Name : option string;
  m_Source : option string;
  m_Destination : option string;
  m_Type : option string;
  m_RW : option bool;
  m_ReadOnly : option bool;
  m_Propagation : option string }.

Record config := {
  Hostname : option string;
  Image : option string;
  Cmd : option (list string);
  Entrypoint : option (list string);
  Env : option (list string) }.

Record network_settings := { Ports : option port_map }.

Record container_details := {
  Config : option config;
  Name : option string;
  Mounts : option (list mount);
  NetworkSettings : option network_settings }.

(** [{}] where a section is absent. *)
Definition no_config : config :=
  {| Hostname := None; Image := None; Cmd := None; Entrypoint := None; Env := None |}.
Definition no_network_settings : network_settings := {| Ports := None |}.

(** Truth of a looked-up string: [Some s] when the key is present with a
    string [s] that is not empty, the only case an [if] or an [or] takes. *)
Definition truthy (o : option string) : option string :=
  match o with
  | Some (String c t) => Some (String c t)
  | _ => None
  end.

Definition nonempty {A} (l : list A) : bool :=
  match l with
  | [] => false
  | _ :: _ => true
  end.

(** [a or b] for an optional string [a]. *)
Definition or_str (a : option string) (b : string) : string :=
  default b (truthy a).

(** ** The engine *)

(** The class [[a-z0-9-]]. *)
Definition name_char (c : ascii) : bool :=
  Py.is_lower c || Py.is_digit c || Ascii.eqb c "-".

Definition sanitize_name (name : string) : string :=
  let name :=
    Py.strip "-" (Py.re_sub_plus (fun c => negb (name_char c)) "-" (Py.lower name)) in
  match name with
  | EmptyString => "container"
  | _ => name
  end.

(** One turn of the loop over the environment list. *)
Definition env_entry (item : string) : result value :=
  '(key, value) ← (if Py.char_in item "=" then Py.unpack2 (Py.split1 "=" item)
                   else Ok (item, ""));
  Ok (VDict [("name", VStr key); ("value", VStr value)]).

Fixpoint transform_env_loop (env_list : list string) (env_entries : list value)
  : result (list value) :=
  match env_list with
  | [] => Ok env_entries
  | item :: rest =>
      entry ← env_entry item;
      transform_env_loop rest (env_entries ++ [entry])
  end.

Definition transform_env (env_list : list string) : result (list value) :=
  transform_env_loop env_list [].

Record volumes_result := {
  volumes : list value;
  volume_mounts : list value }.

Definition mount_name (index : nat) (m : mount) : string :=
  sanitize_name (or_str (m_Name m) (or_str (m_Source m) ("vol-" +:+ Py.str index))).

Definition volume_mount (index : nat) (m : mount) : dict :=
  let volume_mount :=
    [("name", VStr (mount_name index m));
     ("mountPath", VStr (default "/data" (m_Destination m)))] in
  if bool_decide (m_RW m = Some false) || bool_decide (m_ReadOnly m = Some true)
  then dict_set "readOnly" (VBool true) volume_mount
  else volume_mount.

(** The volume definition a mount adds to [volume_defs]; [None] where the
    loop goes on to the next mount without adding one. *)
Definition volume_def (index : nat) (m : mount) : option value :=
  let mount_name := mount_name index m in
  if bool_decide (m_Type m = Some "bind") then
    match truthy (m_Source m) with
    | None => None
    | Some source_path =>
        Some (VDict [("name", VStr mount_name);
                     ("hostPath",
                      VDict [("path", VStr source_path);
                             ("type", VStr (match truthy (m_Propagation m) with
                                            | Some _ => "DirectoryOrCreate"
                                            | None => "Directory"
                                            end))])])
    end
  else
    Some (VDict [("name", VStr mount_name);
                 ("persistentVolumeClaim", VDict [("claimName", VStr mount_name)])]).

Fixpoint build_volumes_loop (index : nat) (mounts : list mount)
    (volume_defs mount_defs : list value) : volumes_result :=
  match mounts with
  | [] => {| volumes := volume_defs; volume_mounts := mount_defs |}
  | m :: rest =>
      let mount_defs := mount_defs ++ [VDict (volume_mount index m)] in
      match volume_def index m with
      | None => build_volumes_loop (S index) rest volume_defs mount_defs
      | Some v => build_volumes_loop (S index) rest (volume_defs ++ [v]) mount_defs
      end
  end.

Definition build_volumes (mounts : list mount) : volumes_result :=
  build_volumes_loop 0 mounts [] [].

(** One turn of the loop over the exposure map: the entry it appends,
    [None] where the [except ValueError] clause goes on to the next key. *)
Definition port_entry (exposed : string) (bindings : option (list binding))
  : result (option value) :=
  match Py.unpack2 (Py.split "/" exposed) with
  | Raise ValueError => Ok None
  | Raise e => Raise e
  | Ok (container_port, protocol) =>
      port ← Py.int container_port;
      targetPort ← Py.int container_port;
      let entry :=
        [("name", VStr ("port-" +:+ container_port +:+ "-" +:+ protocol));
         ("port", VInt port);
         ("targetPort", VInt targetPort);
         ("protocol", VStr (Py.upper protocol))] in
      entry ← match bindings with
              | Some (binding :: _) =>
                  match truthy (HostPort binding) with
                  | Some host_port =>
                      port ← Py.int host_port;
                      Ok (dict_set "port" (VInt port) entry)
                  | None => Ok entry
                  end
              | _ => Ok entry
              end;
      Ok (Some (VDict entry))
  end.

Fixpoint collect_ports_loop (items : port_map) (ports : list value)
  : result (list value) :=
  match items with
  | [] => Ok ports
  | (exposed, bindings) :: rest =>
      entry ← port_entry exposed bindings;
      match entry with
      | None => collect_ports_loop rest ports
      | Some entry => collect_ports_loop rest (ports ++ [entry])
      end
  end.

Definition collect_ports (port_map : option port_map) : result (list value) :=
  match port_map with
  | None | Some [] => Ok []
  | Some items => collect_ports_loop items []
  end.

(** [{"containerPort": port["targetPort"], "protocol": port["protocol"]}];
    a subscript of a key that is absent raises [KeyError]. *)
Definition container_port (port : value) : result value :=
  match port with
  | VDict d =>
      match dict_get "targetPort" d, dict_get "protocol" d with
      | Some t, Some p => Ok (VDict [("containerPort", t); ("protocol", p)])
      | _, _ => Raise KeyError
      end
  | _ => Raise TypeError
  end.

(** The three dicts [build_k8s_documents] assembles, in the order in which
    it assembles them: the container spec with its optional keys, the
    Deployment with its optional [volumes], and the Service. *)
Definition container_spec_of (config : config) (container_name image : string)
    (env_vars : list value) (mounts : volumes_result) (ports : list value)
  : result dict :=
  let container_spec := [("name", VStr container_name); ("image", VStr image)] in
  let container_spec :=
    match Cmd config with
    | Some (a :: l) => dict_set "args" (VList (VStr <$> a :: l)) container_spec
    | _ => container_spec
    end in
  let container_spec :=
    match Entrypoint config with
    | Some (a :: l) => dict_set "command" (VList (VStr <$> a :: l)) container_spec
    | _ => container_spec
    end in
  let container_spec :=
    if nonempty env_vars then dict_set "env" (VList env_vars) container_spec
    else container_spec in
  let container_spec :=
    if nonempty (volume_mounts mounts)
    then dict_set "volumeMounts" (VList (volume_mounts mounts)) container_spec
    else container_spec in
  if nonempty ports
  then container_ports ← mapM container_port ports;
       Ok (dict_set "ports" (VList container_ports) container_spec)
  else Ok container_spec.

Definition deployment_of (container_name namespace : string)
    (container_spec : dict) (mounts : volumes_result) : value :=
  let deployment :=
    VDict [("apiVersion", VStr "apps/v1");
           ("kind", VStr "Deployment");
           ("metadata", VDict [("name", VStr container_name);
                               ("namespace", VStr namespace)]);
           ("spec",
            VDict [("replicas", VInt 1);
                   ("selector",
                    VDict [("matchLabels", VDict [("app", VStr container_name)])]);
                   ("template",
                    VDict [("metadata",
                            VDict [("labels", VDict [("app", VStr container_name)])]);
                           ("spec", VDict [("containers", VList [VDict container_spec])])])])] in
  if nonempty (volumes mounts)
  then set_in ["spec"; "template"; "spec"] "volumes" (VList (volumes mounts)) deployment
  else deployment.

Definition service_of (container_name namespace : string) (ports : list value) : value :=
  VDict [("apiVersion", VStr "v1");
         ("kind", VStr "Service");
         ("metadata", VDict [("name", VStr (container_name +:+ "-svc"));
                             ("namespace", VStr namespace)]);
         ("spec", VDict [("selector", VDict [("app", VStr container_name)]);
                         ("ports", VList ports);
                         ("type", VStr "ClusterIP")])].

Definition build_k8s_documents (container_details : container_details)
    (namespace : string) : result (list value) :=
  let config := default no_config (Config container_details) in
  let container_name :=
    sanitize_name (or_str (Hostname config) (default "app" (Name container_details))) in
  let image := default "image:latest" (Image config) in
  env_vars ← transform_env (default [] (Env config));
  let mounts := build_volumes (default [] (Mounts container_details)) in
  ports ← collect_ports
            (Ports (default no_network_settings (NetworkSettings container_details)));
  container_spec ← container_spec_of config container_name image env_vars mounts ports;
  let deployment := deployment_of container_name namespace container_spec mounts in
  let documents := [deployment] in
  let documents :=
    if nonempty ports
    then documents ++ [service_of container_name namespace ports]
    else documents in
  Ok documents.

(** ** The specification's wording of the sanitizer

    A second definition, following the specification's sentence rather
    than the code: the input is cut into its maximal runs, every run of
    characters outside the class becomes one hyphen, and hyphens are
    dropped at both ends. *)

Module Spec.

(** The maximal runs of [s], each tagged with whether its characters
    are in class [P]. *)
Fixpoint runs (P : ascii -> bool) (s : string) : list (bool * string) :=
  match s with
  | EmptyString => []
  | String c t =>
      match runs P t with
      | (b, r) :: rest =>
          if Bool.eqb b (P c) then (b, String c r) :: rest
          else (P c, String c EmptyString) :: (b, r) :: rest
      | [] => [(P c, String c EmptyString)]
      end
  end.

(** Neighbouring runs are of different kinds. *)
Fixpoint alternate (l : list (bool * string)) : Prop :=
  match l with
  | r1 :: ((r2 :: _) as rest) => fst r1 <> fst r2 /\ alternate rest
  | _ => True
  end.

Definition join (l : list string) : string := foldr String.append EmptyString l.

Definition replace_runs (P : ascii -> bool) (repl : string) (s : string) : string :=
  join ((fun r : bool * string => if fst r then repl else snd r) <$> runs P s).

Fixpoint drop_leading (c : ascii) (l : list ascii) : list ascii :=
  match l with
  | [] => []
  | x :: r => if Ascii.eqb x c then drop_leading c r else l
  end.

Definition strip_char (c : ascii) (s : string) : string :=
  string_of_list_ascii
    (reverse (drop_leading c (reverse (drop_leading c (list_ascii_of_string s))))).

Definition sanitize (raw fallback : string) : string :=
  let r := strip_char "-" (replace_runs (fun c => negb (name_char c)) "-" (Py.lower raw)) in
  match r with
  | EmptyString => fallback
  | _ => r
  end.

(** The pattern [^[a-z0-9]([a-z0-9-]*[a-z0-9])?$]: [name_tail] is the
    optional group up to the end of the string. *)
Definition alnum (c : ascii) : bool := Py.is_lower c || Py.is_digit c.

Fixpoint name_tail (s : string) : bool :=
  match s with
  | EmptyString => true
  | String c EmptyString => alnum c
  | String c t => name_char c && name_tail t
  end.

Definition name_re (s : string) : bool :=
  match s with
  | EmptyString => false
  | String c t => alnum c && name_tail t
  end.

End Spec.

(** ** Vocabulary of the properties *)

Fixpoint all_chars (P : ascii -> bool) (s : string) : bool :=
  match s with
  | EmptyString => true
  | String c t => P c && all_chars P t
  end.

(** The characters the sanitizer replaces. *)
Definition bad_char (c : ascii) : bool := negb (name_char c).
Definition hyphen (c : ascii) : bool := Py.char_in "-" c.

(** The string the sanitizer tests for emptiness. *)
Definition cleaned (name : string) : string :=
  Py.strip "-" (Py.re_sub_plus bad_char "-" (Py.lower name)).

(** The name an emitted volume or volume mount carries. *)
Definition entry_name (v : value) : option string :=
  match v with
  | VDict d =>
      match dict_get "name" d with
      | Some (VStr s) => Some s
      | _ => None
      end
  | _ => None
  end.

(** What one environment string becomes. *)
Definition env_pair (item : string) (e : value) : Prop :=
  exists key value,
    e = VDict [("name", VStr key); ("value", VStr value)] /\
    ((Py.char_in item "=" = true /\ item = key +:+ "=" +:+ value /\
      Py.char_in key "=" = false) \/
     (Py.char_in item "=" = false /\ key = item /\ value = EmptyString)).

(** *** Mounts *)

(** The descriptor marks the mount read-only. *)
Definition explicitly_read_only (m : mount) : Prop :=
  m_RW m = Some false \/ m_ReadOnly m = Some true.

(** A bind mount without a source path. *)
Definition sourceless_bind (m : mount) : Prop :=
  m_Type m = Some "bind" /\ truthy (m_Source m) = None.

(** A mount with neither a name nor a source, named after its index. *)
Definition anonymous (m : mount) : Prop :=
  truthy (m_Name m) = None /\ truthy (m_Source m) = None.

(** How many of the entries [l] carry the name [n]. *)
Definition count_named (n : option string) (l : list value) : nat :=
  length (filter (fun v => entry_name v = n) l).

(** Every volume mount has exactly one volume definition of its name. *)
Definition one_volume_per_mount (r : volumes_result) : Prop :=
  forall vm, vm ∈ volume_mounts r -> count_named (entry_name vm) (volumes r) = 1.

(** The names of the volume mounts are pairwise distinct. *)
Definition distinct_mount_names (r : volumes_result) : Prop :=
  NoDup (entry_name <$> volume_mounts r).

(** A named volume, as the engine reports one mounted at [destination]. *)
Definition named_volume (name destination : string) : mount :=
  {| m_Name := Some name; m_Source := None; m_Destination := Some destination;
     m_Type := Some "volume"; m_RW := Some true; m_ReadOnly := None;
     m_Propagation := None |}.

(** A bind mount of the host path [source]. *)
Definition bind_mount (source destination : string) : mount :=
  {| m_Name := None; m_Source := Some source; m_Destination := Some destination;
     m_Type := Some "bind"; m_RW := Some true; m_ReadOnly := None;
     m_Propagation := None |}.

(** A mount of kind [type] that has neither name nor source. *)
Definition bare_mount (type : string) : mount :=
  {| m_Name := None; m_Source := None; m_Destination := None;
     m_Type := Some type; m_RW := None; m_ReadOnly := None;
     m_Propagation := None |}.

(** *** Ports *)

(** The host port the first binding declares, if there is one. *)
Definition first_host_port (bindings : option (list binding)) : option string :=
  match bindings with
  | Some (b :: _) => truthy (HostPort b)
  | _ => None
  end.

(** A key of the exposure map that splits into exactly two parts. *)
Definition two_parts (exposed : string) : bool :=
  match Py.unpack2 (Py.split "/" exposed) with
  | Ok _ => true
  | Raise _ => false
  end.

(** The port entry of an item of the exposure map: the key is
    [cport/proto], [targetPort] is the number [cport] reads as, and [port]
    is that number unless the first binding declares a host port. *)
Definition port_of (item : string * option (list binding)) (port : value) : Prop :=
  exists cport proto n p,
    fst item = cport +:+ "/" +:+ proto /\
    Py.char_in cport "/" = false /\ Py.char_in proto "/" = false /\
    Py.int cport = Ok n /\
    match first_host_port (snd item) with
    | Some h => Py.int h = Ok p
    | None => p = n
    end /\
    port = VDict [("name", VStr ("port-" +:+ cport +:+ "-" +:+ proto));
                  ("port", VInt p);
                  ("targetPort", VInt n);
                  ("protocol", VStr (Py.upper proto))].

(** The container port of an item of the exposure map: the number its key
    reads as, whatever its bindings are. *)
Definition exposes (item : string * option (list binding)) (cp : value) : Prop :=
  exists cport proto n,
    fst item = cport +:+ "/" +:+ proto /\
    Py.char_in cport "/" = false /\ Py.char_in proto "/" = false /\
    Py.int cport = Ok n /\
    exists protocol, cp = VDict [("containerPort", VInt n); ("protocol", protocol)].

(** Published and unpublished ports, as the engine reports them. *)
Definition published (host_port : string) : option (list binding) :=
  Some [ {| HostPort := Some host_port |} ].
Definition unpublished : option (list binding) := None.

(** *** Documents *)

(** The name the resources are given, and the exposure map read. *)
Definition container_name_of (cd : container_details) : string :=
  sanitize_name (or_str (Hostname (default no_config (Config cd)))
                        (default "app" (Name cd))).

Definition exposure_map (cd : container_details) : option port_map :=
  Ports (default no_network_settings (NetworkSettings cd)).

Definition exposed_items (cd : container_details) : port_map :=
  filter (fun item => two_parts (fst item) = true) (default [] (exposure_map cd)).

(** A container port repeats the [targetPort] and [protocol] of its port. *)
Definition container_port_of (port cp : value) : Prop :=
  exists d t p,
    port = VDict d /\ dict_get "targetPort" d = Some t /\
    dict_get "protocol" d = Some p /\
    cp = VDict [("containerPort", t); ("protocol", p)].

(** A container of the given host name, without mounts. *)
Definition container_on (hostname : string) (ports : option port_map)
  : container_details :=
  {| Config := Some {| Hostname := Some hostname; Image := Some "nginx:1.25";
                       Cmd := None; Entrypoint := None; Env := Some ["A=1"; "B"] |};
     Name := Some "/web";
     Mounts := None;
     NetworkSettings := Some {| Ports := ports |} |}.

(** *** Outcomes of the port mapper *)

(** An item of the exposure map the loop can turn into an entry or pass
    over: its key does not split into two parts, or the port part and the
    host port of the first binding, if it declares one, are literals [int]
    accepts. *)
Definition accepted (s : string) : bool :=
  match Py.int s with
  | Ok _ => true
  | Raise _ => false
  end.

Definition readable (item : string * option (list binding)) : bool :=
  match Py.unpack2 (Py.split "/" (fst item)) with
  | Ok (container_port, _) =>
      accepted container_port &&
      match first_host_port (snd item) with
      | Some host_port => accepted host_port
      | None => true
      end
  | Raise _ => true
  end.

(** A key of a dict holds the list [content], or is absent when the list
    is empty. *)
Definition optional_key (k : string) (content : list value) (d : dict) : Prop :=
  dict_get k d = if nonempty content then Some (VList content) else None.

(** The name of an entry matches the pattern of resource names. *)
Definition valid_entry_name (v : value) : Prop :=
  exists n, entry_name v = Some n /\ Spec.name_re n = true.

(** [_save_manifest] of the terminal interface: the file the manifest of a
    container is written to. *)
Definition manifest_filename (container_details : container_details) : string :=
  let config := default no_config (Config container_details) in
  let container_name :=
    sanitize_name (or_str (Hostname config) (default "app" (Name container_details))) in
  container_name +:+ "-manifest.yaml".

(** The characters of a file name that stays in the working directory. *)
Definition filename_char (c : ascii) : bool := name_char c || Ascii.eqb c ".".

(** ** The Portainer client

    The methods of [PortainerClient] that decide something: the
    constructor, [_login] and [resolve_container_id].  The server is a
    parameter: what it answers to the two requests the methods send. *)

Module PyText.

(** [s.startswith(prefix)]. *)
Fixpoint startswith (prefix s : string) : bool :=
  match prefix, s with
  | EmptyString, _ => true
  | String p prefix', String c s' => Ascii.eqb p c && startswith prefix' s'
  | String _ _, EmptyString => false
  end.

(** [s.lstrip(chars)] and [s.rstrip(chars)]. *)
Definition lstrip (chars : string) (s : string) : string :=
  Py.skip_while (Py.char_in chars) s.
Definition rstrip (chars : string) (s : string) : string :=
  Py.drop_end (Py.char_in chars) s.

(** [sep.join(parts)]. *)
Fixpoint join (sep : string) (parts : list string) : string :=
  match parts with
  | [] => EmptyString
  | [s] => s
  | s :: rest => s +:+ sep +:+ join sep rest
  end.

(** [str(z)] for an integer, as an f-string prints it. *)
Definition str_int (z : Z) : string :=
  match z with
  | Zneg p => "-" +:+ Py.str (Pos.to_nat p)
  | _ => Py.str (Z.to_nat z)
  end.

End PyText.

Module Client.

Inductive exn :=
| ValueError (msg : string)
| RuntimeError (msg : string)
| HTTPError (status_code : Z)
| KeyError (key : string).

Inductive outcome (A : Type) :=
| Return (a : A)
| Throw (e : exn).
Arguments Return {A} a.
Arguments Throw {A} e.

#[global] Instance outcome_ret : MRet outcome := fun A a => Return a.
#[global] Instance outcome_bind : MBind outcome := fun A B f m =>
  match m with
  | Return a => f a
  | Throw e => Throw e
  end.

(** The answer to [POST /api/auth]: status, body text, and the [jwt] key of
    the body read as JSON. *)
Record auth_response := {
  auth_status_code : Z;
  auth_text : string;
  auth_jwt : option string }.

(** An entry of the container list: [Id] is always there, [Names] may be
    absent. *)
Record container_summary := {
  Id : string;
  Names : option (list string) }.

(** The answer to [GET .../docker/containers/json]. *)
Record list_response := {
  list_status_code : Z;
  list_json : list container_summary }.

(** The server: its answer to the login request (URL, user name,
    password) and to the list request (URL, headers of the session). *)
Record server := {
  post_auth : string -> string -> string -> auth_response;
  get_containers : string -> list (string * string) -> list_response }.

(** The state of a client: the headers are those the constructor adds to
    the ones of a new session. *)
Record client := {
  base_url : string;
  endpoint_id : Z;
  headers : list (string * string) }.

(** [response.raise_for_status()]: the statuses 400 to 599 raise. *)
Definition raise_for_status (status_code : Z) : outcome unit :=
  if ((400 <=? status_code) && (status_code <? 600))%Z
  then Throw (HTTPError status_code)
  else Return tt.

Definition _login (net : server) (base_url username password : string)
  : outcome string :=
  let response := post_auth net (base_url +:+ "/api/auth") username password in
  if negb (auth_status_code response =? 200)%Z then
    Throw (RuntimeError ("Failed to authenticate: HTTP " +:+
                         PyText.str_int (auth_status_code response) +:+ " " +:+
                         auth_text response))
  else
    match auth_jwt response with
    | Some jwt => Return jwt
    | None => Throw (KeyError "jwt")
    end.

Definition __init__ (net : server) (base_url : string) (endpoint_id : Z)
    (api_key username password : option string) : outcome client :=
  if negb (PyText.startswith "http://" base_url || PyText.startswith "https://" base_url)
  then Throw (ValueError "Portainer URL must include http:// or https://")
  else
    let base_url := PyText.rstrip "/" base_url in
    match truthy api_key with
    | Some api_key =>
        Return {| base_url := base_url; endpoint_id := endpoint_id;
                  headers := [("X-API-Key", api_key)] |}
    | None =>
        match truthy username, truthy password with
        | Some username, Some password =>
            token ← _login net base_url username password;
            Return {| base_url := base_url; endpoint_id := endpoint_id;
                      headers := [("Authorization", "Bearer " +:+ token)] |}
        | _, _ =>
            Throw (ValueError
                     "Provide either an API key or username/password for Portainer")
        end
    end.

(** The test of the loop of [resolve_container_id]. *)
Definition matches_ref (container_ref : string) (container : container_summary) : bool :=
  let names := PyText.lstrip "/" <$> default [] (Names container) in
  PyText.startswith container_ref (Id container) || bool_decide (container_ref ∈ names).

Fixpoint resolve_loop (container_ref : string) (containers : list container_summary)
    (matches : list string) : list string :=
  match containers with
  | [] => matches
  | container :: rest =>
      if matches_ref container_ref container
      then resolve_loop container_ref rest (matches ++ [Id container])
      else resolve_loop container_ref rest matches
  end.

Definition resolve_container_id (net : server) (self : client) (container_ref : string)
  : outcome string :=
  let response :=
    get_containers net
      (base_url self +:+ "/api/endpoints/" +:+ PyText.str_int (endpoint_id self) +:+
       "/docker/containers/json")
      (headers self) in
  _ ← raise_for_status (list_status_code response);
  let matches := resolve_loop container_ref (list_json response) [] in
  match matches with
  | [] =>
      Throw (RuntimeError ("No container matching '" +:+ container_ref +:+
                           "' on endpoint " +:+ PyText.str_int (endpoint_id self)))
  | [container_id] => Return container_id
  | _ =>
      Throw (RuntimeError ("Multiple containers match '" +:+ container_ref +:+ "': " +:+
                           PyText.join ", " matches))
  end.

End Client.

(** *** Vocabulary of the client's properties *)

(** The list request of a client, and the containers of the answer that
    match a reference. *)
Definition list_url (self : Client.client) : string :=
  Client.base_url self +:+ "/api/endpoints/" +:+
  PyText.str_int (Client.endpoint_id self) +:+ "/docker/containers/json".

Definition listed (net : Client.server) (self : Client.client) : Client.list_response :=
  Client.get_containers net (list_url self) (Client.headers self).

Definition matching (container_ref : string) (containers : list Client.container_summary)
  : list string :=
  Client.Id <$> filter (fun c => Client.matches_ref container_ref c = true) containers.

Definition status_ok (status_code : Z) : Prop :=
  ~ (400 <= status_code < 600)%Z.

(** A server that accepts every login with the token [jwt] and lists the
    containers [containers]. *)
Definition serving (jwt : string) (containers : list Client.container_summary)
  : Client.server :=
  {| Client.post_auth := fun _ _ _ =>
       {| Client.auth_status_code := 200; Client.auth_text := EmptyString;
          Client.auth_jwt := Some jwt |};
     Client.get_containers := fun _ _ =>
       {| Client.list_status_code := 200; Client.list_json := containers |} |}.

Definition api_client : Client.client :=
  {| Client.base_url := "http://portainer.local"; Client.endpoint_id := 1;
     Client.headers := [("X-API-Key", "key")] |}.

Definition web_container : Client.container_summary :=
  {| Client.Id := "4f2a9c"; Client.Names := Some ["/web"] |}.
Definition db_container : Client.container_summary :=
  {| Client.Id := "4f77e0"; Client.Names := Some ["/db"] |}.

(** ** The serializer used when PyYAML is absent *)

(** [str(v)] of a scalar, as an f-string prints it; [None] for a dict or a
    list, which the serializer tells apart with [isinstance]. *)
Definition scalar_text (v : value) : option string :=
  match v with
  | VBool true => Some "True"
  | VBool false => Some "False"
  | VInt z => Some (PyText.str_int z)
  | VStr s => Some s
  | VList _ | VDict _ => None
  end.

(** [" " * indent] and the newline. *)
Fixpoint spaces (indent : nat) : string :=
  match indent with
  | O => EmptyString
  | S n => String " " (spaces n)
  end.

Definition newline : string := String "010" EmptyString.

(** The two loops of [_fallback_yaml_dump], over the items of a dict and
    over the items of a list; [dump] is the recursive call, at the deeper
    indentation. *)
Fixpoint dict_lines (spacing : string) (dump : value -> string) (d : dict)
  : list string :=
  match d with
  | [] => []
  | (key, value) :: rest =>
      match scalar_text value with
      | None => [spacing +:+ key +:+ ":"; dump value]
      | Some text => [spacing +:+ key +:+ ": " +:+ text]
      end ++ dict_lines spacing dump rest
  end.

Fixpoint list_lines (spacing : string) (dump : value -> string) (l : list value)
  : list string :=
  match l with
  | [] => []
  | item :: rest =>
      match scalar_text item with
      | None => [spacing +:+ "-"; dump item]
      | Some text => [spacing +:+ "- " +:+ text]
      end ++ list_lines spacing dump rest
  end.

Fixpoint _fallback_yaml_dump (node : value) (indent : nat) : string :=
  let spacing := spaces indent in
  match node with
  | VDict d =>
      PyText.join newline
        (dict_lines spacing (fun value => _fallback_yaml_dump value (indent + 2)) d)
  | VList l =>
      PyText.join newline
        (list_lines spacing (fun item => _fallback_yaml_dump item (indent + 2)) l)
  | VBool _ | VInt _ | VStr _ => spacing +:+ default EmptyString (scalar_text node)
  end.

(** [str.isspace], the characters [s.rstrip()] removes. *)
Definition isspace (c : ascii) : bool :=
  Py.between "009" "013" c || Py.between "028" " " c
  || (Py.code c =? 133)%N || (Py.code c =? 160)%N.

(** [dump_yaml]; [yaml] is PyYAML's [safe_dump] with [sort_keys=False]
    where the library is installed, [None] where it is not. *)
Definition dump_yaml (yaml : option (value -> string)) (documents : list value) : string :=
  match yaml with
  | Some safe_dump =>
      PyText.join (newline +:+ "---" +:+ newline)
        ((fun doc => Py.drop_end isspace (safe_dump doc)) <$> documents)
  | None =>
      PyText.join (newline +:+ "---" +:+ newline)
        ((fun doc => Py.drop_end isspace (_fallback_yaml_dump doc 0)) <$> documents)
  end.

(** A document with every scalar replaced by the string it prints as. *)
Fixpoint untyped (v : value) : value :=
  match v with
  | VBool _ | VInt _ | VStr _ => VStr (default EmptyString (scalar_text v))
  | VList l => VList (untyped <$> l)
  | VDict d => VDict ((fun kv => (fst kv, untyped (snd kv))) <$> d)
  end.

(** ** Properties of the built-ins *)

Section Strings.

Variable P : ascii -> bool.

Lemma skip_while_all Q s :
  all_chars Q s = true -> all_chars Q (Py.skip_while P s) = true.
Proof.
  induction s as [|c t IH]; simpl; [done|].
  intros [Hc Ht]%andb_true_iff. destruct (P c); [auto|].
  simpl. by rewrite Hc, Ht.
Qed.

Lemma drop_end_all Q s :
  all_chars Q s = true -> all_chars Q (Py.drop_end P s) = true.
Proof.
  induction s as [|c t IH]; simpl; [done|].
  intros [Hc Ht]%andb_true_iff. specialize (IH Ht).
  destruct (Py.drop_end P t) as [|d u].
  - destruct (P c); simpl; [done|]. by rewrite Hc.
  - simpl in *. by rewrite Hc, IH.
Qed.

Lemma skip_while_length s :
  String.length (Py.skip_while P s) <= String.length s.
Proof. induction s as [|c t IH]; simpl; [lia|]. destruct (P c); simpl; lia. Qed.

Lemma skip_while_head c t :
  Py.skip_while P (String c t) = String c t <-> P c = false.
Proof.
  simpl. destruct (P c) eqn:Hc; split; try done.
  intros E. pose proof (skip_while_length t) as Hl.
  rewrite E in Hl. simpl in Hl. lia.
Qed.

Lemma skip_while_idem s :
  Py.skip_while P (Py.skip_while P s) = Py.skip_while P s.
Proof.
  induction s as [|c t IH]; simpl; [done|].
  destruct (P c) eqn:Hc; [done|]. simpl. by rewrite Hc.
Qed.

Lemma drop_end_idem s : Py.drop_end P (Py.drop_end P s) = Py.drop_end P s.
Proof.
  induction s as [|c t IH]; simpl; [done|].
  destruct (Py.drop_end P t) as [|d u] eqn:E.
  - destruct (P c) eqn:Hc; simpl; [done|]. by rewrite Hc.
  - simpl in IH |- *.
    destruct (Py.drop_end P u) as [|e v]; by rewrite IH.
Qed.

Lemma drop_end_tail c t :
  t <> EmptyString -> Py.drop_end P (String c t) = String c t ->
  Py.drop_end P t = t.
Proof.
  intros Ht. simpl. destruct (Py.drop_end P t) as [|d u].
  - destruct (P c); congruence.
  - congruence.
Qed.

Lemma drop_end_last c :
  Py.drop_end P (String c EmptyString) = String c EmptyString -> P c = false.
Proof. simpl. by destruct (P c). Qed.

Lemma skip_while_drop_end s :
  Py.skip_while P s = s -> Py.skip_while P (Py.drop_end P s) = Py.drop_end P s.
Proof.
  destruct s as [|c t]; [done|].
  intros Hc. apply (proj1 (skip_while_head c t)) in Hc. simpl.
  destruct (Py.drop_end P t); simpl; rewrite ?Hc; simpl; by rewrite ?Hc.
Qed.

Lemma strip_if_skip s : Py.skip_while P (Py.strip_if P s) = Py.strip_if P s.
Proof. apply skip_while_drop_end, skip_while_idem. Qed.

Lemma strip_if_drop s : Py.drop_end P (Py.strip_if P s) = Py.strip_if P s.
Proof. apply drop_end_idem. Qed.

Lemma strip_if_fixed s :
  Py.skip_while P s = s -> Py.drop_end P s = s -> Py.strip_if P s = s.
Proof. unfold Py.strip_if. by intros -> ->. Qed.

Lemma re_sub_plus_cons repl c t :
  Py.re_sub_plus P repl (String c t) =
  if P c then repl +:+ Py.re_sub_plus P repl (Py.skip_while P t)
  else String c (Py.re_sub_plus P repl t).
Proof. simp re_sub_plus. by destruct (P c). Qed.

Lemma all_chars_app Q a b :
  all_chars Q (a +:+ b) = all_chars Q a && all_chars Q b.
Proof. induction a as [|x a IH]; simpl; [done|]. by rewrite IH, andb_assoc. Qed.

(** Induction on the length of the string, the order in which the
    substitution consumes it. *)
Lemma string_length_ind (R : string -> Prop) :
  (forall s, (forall u, String.length u < String.length s -> R u) -> R s) ->
  forall s, R s.
Proof.
  intros step s. remember (String.length s) as n eqn:Hn.
  revert s Hn. induction (lt_wf n) as [n _ IH]. intros s ->.
  apply step. intros u Hu. by apply (IH (String.length u)).
Qed.

Lemma re_sub_plus_all Q repl s :
  all_chars Q repl = true ->
  (forall c, P c = false -> Q c = true) ->
  all_chars Q (Py.re_sub_plus P repl s) = true.
Proof.
  intros Hrepl HQ. induction s as [s IH] using string_length_ind.
  destruct s as [|c t]; [done|]. rewrite re_sub_plus_cons.
  destruct (P c) eqn:Hc.
  - rewrite all_chars_app, Hrepl. simpl. apply IH.
    pose proof (skip_while_length t). simpl. lia.
  - simpl. rewrite (HQ _ Hc). simpl. apply IH. simpl. lia.
Qed.

Lemma re_sub_plus_fixed repl s :
  all_chars (fun c => negb (P c)) s = true -> Py.re_sub_plus P repl s = s.
Proof.
  induction s as [|c t IH]; [done|].
  simpl. intros [Hc Ht]%andb_true_iff. rewrite re_sub_plus_cons.
  apply negb_true_iff in Hc. rewrite Hc. by rewrite IH.
Qed.

End Strings.

(** ** NameSanitizer *)

Section Sanitizer.

Lemma lower_char_name c : name_char c = true -> Py.lower_char c = c.
Proof. destruct c as [[] [] [] [] [] [] [] []]; vm_compute; congruence. Qed.

Lemma name_char_alnum c :
  name_char c = true -> hyphen c = false -> Spec.alnum c = true.
Proof. destruct c as [[] [] [] [] [] [] [] []]; vm_compute; congruence. Qed.

Lemma alnum_name_char c : Spec.alnum c = true -> name_char c = true.
Proof. unfold name_char, Spec.alnum. intros ->. done. Qed.

Lemma lower_fixed s : all_chars name_char s = true -> Py.lower s = s.
Proof.
  induction s as [|c t IH]; simpl; [done|].
  intros [Hc Ht]%andb_true_iff.
  unfold Py.lower in *. simpl. by rewrite (lower_char_name _ Hc), IH.
Qed.

Lemma sanitize_name_cleaned name :
  sanitize_name name =
  match cleaned name with EmptyString => "container" | _ => cleaned name end.
Proof. reflexivity. Qed.

Lemma cleaned_all name : all_chars name_char (cleaned name) = true.
Proof.
  unfold cleaned, Py.strip, Py.strip_if.
  apply drop_end_all, skip_while_all, re_sub_plus_all; [done|].
  unfold bad_char. by intros c ->%negb_false_iff.
Qed.

Lemma cleaned_skip name : Py.skip_while hyphen (cleaned name) = cleaned name.
Proof. apply strip_if_skip. Qed.

Lemma cleaned_drop name : Py.drop_end hyphen (cleaned name) = cleaned name.
Proof. apply strip_if_drop. Qed.

(** A name over the class that neither starts nor ends with a hyphen is
    left alone by every stage of the sanitizer. *)
Lemma cleaned_fixed y :
  all_chars name_char y = true ->
  Py.skip_while hyphen y = y -> Py.drop_end hyphen y = y ->
  cleaned y = y.
Proof.
  intros Hall Hs Hd. unfold cleaned.
  rewrite (lower_fixed _ Hall), re_sub_plus_fixed.
  - by apply strip_if_fixed.
  - unfold bad_char. erewrite <- Hall. clear.
    induction y as [|c t IH]; simpl; [done|]. by rewrite negb_involutive, IH.
Qed.

Lemma name_tail_stripped t :
  t <> EmptyString -> all_chars name_char t = true ->
  Py.drop_end hyphen t = t -> Spec.name_tail t = true.
Proof.
  induction t as [|d u IH]; [done|]. intros _.
  simpl all_chars. intros [Hd Hu]%andb_true_iff E.
  destruct u as [|e v].
  - simpl. apply name_char_alnum; [done|]. by apply drop_end_last.
  - change (Spec.name_tail (String d (String e v)))
      with (name_char d && Spec.name_tail (String e v)).
    rewrite Hd. simpl. apply IH; [done|done|].
    by apply drop_end_tail in E.
Qed.

Lemma name_re_stripped y :
  y <> EmptyString -> all_chars name_char y = true ->
  Py.skip_while hyphen y = y -> Py.drop_end hyphen y = y ->
  Spec.name_re y = true.
Proof.
  destruct y as [|c t]; [done|]. intros _.
  simpl all_chars. intros [Hc Ht]%andb_true_iff Hs Hd.
  apply (proj1 (skip_while_head hyphen c t)) in Hs.
  simpl. rewrite (name_char_alnum _ Hc Hs). simpl.
  destruct t as [|d u]; [done|].
  apply name_tail_stripped; [done|done|].
  by apply drop_end_tail in Hd.
Qed.

End Sanitizer.

(** *** The code against the specification's wording *)

Section SanitizerRefinement.

Variable P : ascii -> bool.
Variable repl : string.

Lemma runs_head c t :
  exists r rest, Spec.runs P (String c t) = (P c, String c r) :: rest.
Proof.
  revert c. induction t as [|d u IH]; intros c; simpl.
  - by eexists _, _.
  - destruct (IH d) as (r & rest & E). simpl in E. rewrite E.
    destruct (Bool.eqb (P d) (P c)) eqn:Hb.
    + apply eqb_prop in Hb. rewrite Hb. by eexists _, _.
    + by eexists _, _.
Qed.

(** The runs are a partition of the string... *)
Lemma runs_join s : Spec.join (snd <$> Spec.runs P s) = s.
Proof.
  induction s as [|c t IH]; simpl; [done|].
  destruct (Spec.runs P t) as [|[b r] rest]; simpl in *.
  - by rewrite <- IH.
  - destruct (Bool.eqb b (P c)); simpl; by rewrite <- IH.
Qed.

(** ...each run is not empty and lies wholly inside or outside the class... *)
Lemma runs_uniform s :
  Forall (fun r : bool * string =>
            snd r <> EmptyString /\
            all_chars (fun c => Bool.eqb (P c) (fst r)) (snd r) = true)
         (Spec.runs P s).
Proof.
  induction s as [|c t IH]; simpl; [constructor|].
  destruct (Spec.runs P t) as [|[b r] rest].
  - repeat constructor; simpl; [done|]. by rewrite eqb_reflx.
  - inversion IH as [|? ? [Hne Hall] Hrest]; subst. simpl in *.
    destruct (Bool.eqb b (P c)) eqn:Hb.
    + apply eqb_prop in Hb. subst b.
      constructor; [|done]. simpl. split; [done|].
      by rewrite eqb_reflx, Hall.
    + repeat constructor; simpl; try done. by rewrite eqb_reflx.
Qed.

(** ...and two neighbouring runs are of different kinds: every run is
    maximal. *)
Lemma runs_alternate s : Spec.alternate (Spec.runs P s).
Proof.
  induction s as [|c t IH]; simpl; [done|].
  destruct (Spec.runs P t) as [|[b r] rest]; [done|].
  destruct (Bool.eqb b (P c)) eqn:Hb.
  - destruct rest; [done|]. simpl in *. done.
  - split; [|done]. simpl. intros E. rewrite E, eqb_reflx in Hb. done.
Qed.

Lemma replace_runs_cons c t :
  Spec.replace_runs P repl (String c t) =
  if P c then
    match t with
    | String d _ =>
        if P d then Spec.replace_runs P repl t
        else repl +:+ Spec.replace_runs P repl t
    | EmptyString => repl +:+ EmptyString
    end
  else String c (Spec.replace_runs P repl t).
Proof.
  unfold Spec.replace_runs. destruct t as [|d u].
  - simpl. by destruct (P c).
  - destruct (runs_head d u) as (r & rest & E).
    change (Spec.runs P (String c (String d u))) with
      (match Spec.runs P (String d u) with
       | (b, r) :: rest =>
           if Bool.eqb b (P c) then (b, String c r) :: rest
           else (P c, String c EmptyString) :: (b, r) :: rest
       | [] => [(P c, String c EmptyString)]
       end).
    rewrite E. destruct (P c), (P d); reflexivity.
Qed.

Lemma re_sub_plus_replace_runs s :
  Py.re_sub_plus P repl s = Spec.replace_runs P repl s.
Proof.
  induction s as [|c t IH]; [done|].
  rewrite re_sub_plus_cons, replace_runs_cons, <- IH.
  destruct (P c) eqn:Hc; [|done].
  destruct t as [|d u]; [done|].
  simpl Py.skip_while. destruct (P d) eqn:Hd; [|done].
  by rewrite re_sub_plus_cons, Hd.
Qed.

End SanitizerRefinement.

Section StripRefinement.

Variable c : ascii.
Variable Q : ascii -> bool.
Hypothesis Q_single : forall x, Q x = Ascii.eqb x c.

Lemma skip_while_drop_leading s :
  list_ascii_of_string (Py.skip_while Q s) =
  Spec.drop_leading c (list_ascii_of_string s).
Proof.
  induction s as [|x t IH]; simpl; [done|].
  rewrite Q_single. by destruct (Ascii.eqb x c).
Qed.

Lemma drop_leading_snoc l x :
  Spec.drop_leading c (l ++ [x]) =
  match Spec.drop_leading c l with
  | [] => if Ascii.eqb x c then [] else [x]
  | l' => l' ++ [x]
  end.
Proof.
  induction l as [|y l IH]; simpl; [done|].
  destruct (Ascii.eqb y c); [apply IH|done].
Qed.

Lemma drop_end_drop_leading s :
  list_ascii_of_string (Py.drop_end Q s) =
  reverse (Spec.drop_leading c (reverse (list_ascii_of_string s))).
Proof.
  induction s as [|x t IH]; simpl; [done|].
  rewrite reverse_cons, drop_leading_snoc.
  destruct (Spec.drop_leading c (reverse (list_ascii_of_string t))) as [|y l].
  - destruct (Py.drop_end Q t); [|discriminate IH].
    rewrite Q_single. by destruct (Ascii.eqb x c).
  - rewrite reverse_app. simpl.
    destruct (Py.drop_end Q t) as [|a u].
    + simpl in IH. rewrite reverse_cons in IH. by destruct (reverse l).
    + by rewrite <- IH.
Qed.

Lemma strip_if_strip_char s : Py.strip_if Q s = Spec.strip_char c s.
Proof.
  unfold Spec.strip_char, Py.strip_if.
  by rewrite <- skip_while_drop_leading, <- drop_end_drop_leading,
    string_of_list_ascii_of_string.
Qed.

End StripRefinement.

Lemma sanitize_name_refines name : sanitize_name name = Spec.sanitize name "container".
Proof.
  unfold sanitize_name, Spec.sanitize.
  rewrite re_sub_plus_replace_runs. unfold Py.strip.
  rewrite (strip_if_strip_char "-"); [done|].
  intros x. simpl. apply orb_false_r.
Qed.

Lemma sanitize_name_shape name :
  sanitize_name name = "container" \/
  (sanitize_name name = cleaned name /\ cleaned name <> EmptyString).
Proof.
  rewrite sanitize_name_cleaned. destruct (cleaned name); [by left|by right].
Qed.

(** C2: [sanitize_name] computes what the specification describes: the
    lower-cased input with every maximal run of characters outside
    [[a-z0-9-]] replaced by one hyphen and the hyphens at both ends
    removed, or ["container"] when nothing is left; its result therefore
    matches [^[a-z0-9]([a-z0-9-]*[a-z0-9])?$] or is the fallback. *)
Theorem sanitize_name_spec (name : string) :
  sanitize_name name = Spec.sanitize name "container" /\
  (Spec.name_re (sanitize_name name) = true \/ sanitize_name name = "container").
Proof.
  split; [apply sanitize_name_refines|].
  destruct (sanitize_name_shape name) as [E|[E Hne]]; [by right|left].
  rewrite E. apply name_re_stripped;
    auto using cleaned_all, cleaned_skip, cleaned_drop.
Qed.

(** C3: [sanitize_name] is idempotent. *)
Theorem sanitize_name_idempotent (x : string) :
  sanitize_name (sanitize_name x) = sanitize_name x.
Proof.
  destruct (sanitize_name_shape x) as [E|[E Hne]]; rewrite E; [done|].
  rewrite sanitize_name_cleaned.
  rewrite cleaned_fixed by auto using cleaned_all, cleaned_skip, cleaned_drop.
  by destruct (cleaned x).
Qed.

Example sanitize_my_app : sanitize_name "My_App!!" = "my-app".
Proof. reflexivity. Qed.

Example sanitize_hyphens : sanitize_name "---" = "container".
Proof. reflexivity. Qed.

Example sanitize_empty : sanitize_name "" = "container".
Proof. reflexivity. Qed.

(** ** EnvironmentMapper *)

Section Environment.

Lemma split1_at_first sep s :
  Py.char_in s sep = true ->
  exists k v, Py.split1 sep s = [k; v] /\ s = k +:+ String sep v /\
              Py.char_in k sep = false.
Proof.
  induction s as [|c t IH]; simpl; [done|].
  rewrite Ascii.eqb_sym. destruct (Ascii.eqb c sep) eqn:Hc; simpl.
  - intros _. apply Ascii.eqb_eq in Hc as ->. by exists EmptyString, t.
  - intros (k & v & E & -> & Hk)%IH. rewrite E.
    exists (String c k), v. simpl. by rewrite Ascii.eqb_sym, Hc, Hk.
Qed.

Lemma env_entry_pair item : exists e, env_entry item = Ok e /\ env_pair item e.
Proof.
  unfold env_entry, env_pair. destruct (Py.char_in item "=") eqn:Hin.
  - destruct (split1_at_first _ _ Hin) as (k & v & -> & E & Hk). simpl.
    eexists; split; [done|]. exists k, v. split; [done|]. left. by rewrite Hk.
  - simpl. eexists; split; [done|]. exists item, EmptyString. split; [done|]. by right.
Qed.

Lemma transform_env_loop_spec env_list env_entries :
  exists entries,
    transform_env_loop env_list env_entries = Ok (env_entries ++ entries) /\
    Forall2 env_pair env_list entries.
Proof.
  revert env_entries. induction env_list as [|item rest IH]; intros acc; simpl.
  - exists []. split; [by rewrite app_nil_r|constructor].
  - destruct (env_entry_pair item) as (e & -> & He). simpl.
    destruct (IH (acc ++ [e])) as (es & -> & Hes).
    exists (e :: es). split; [by rewrite <- app_assoc|by constructor].
Qed.

End Environment.

(** C4: [transform_env] never fails and returns one name/value pair per
    entry, in the order of the entries and without merging equal names:
    an entry with an equals sign is cut at its first one, an entry without
    one becomes the name, with the empty string for value. *)
Theorem transform_env_spec (env_list : list string) :
  exists entries,
    transform_env env_list = Ok entries /\ Forall2 env_pair env_list entries.
Proof. apply (transform_env_loop_spec env_list []). Qed.

Example transform_env_example :
  transform_env ["A=1"; "B"; "A=x=y"] =
  Ok [VDict [("name", VStr "A"); ("value", VStr "1")];
      VDict [("name", VStr "B"); ("value", VStr "")];
      VDict [("name", VStr "A"); ("value", VStr "x=y")]].
Proof. reflexivity. Qed.

(** ** VolumeMapper *)

Section Volumes.

(** The loop only ever appends to its two accumulators. *)
Lemma build_volumes_loop_acc index mounts volume_defs mount_defs :
  build_volumes_loop index mounts volume_defs mount_defs =
  {| volumes := volume_defs ++ volumes (build_volumes_loop index mounts [] []);
     volume_mounts :=
       mount_defs ++ volume_mounts (build_volumes_loop index mounts [] []) |}.
Proof.
  revert index volume_defs mount_defs.
  induction mounts as [|m rest IH]; intros i vd md; simpl.
  - by rewrite !app_nil_r.
  - destruct (volume_def i m) as [v|].
    + rewrite (IH (S i) (vd ++ [v])), (IH (S i) [v] [_]). simpl.
      by rewrite <- !app_assoc.
    + rewrite (IH (S i) vd), (IH (S i) [] [_]). simpl.
      by rewrite <- !app_assoc.
Qed.

Lemma build_volumes_loop_cons index m rest :
  build_volumes_loop index (m :: rest) [] [] =
  {| volumes := option_list (volume_def index m) ++
                volumes (build_volumes_loop (S index) rest [] []);
     volume_mounts := VDict (volume_mount index m) ::
                      volume_mounts (build_volumes_loop (S index) rest [] []) |}.
Proof.
  simpl. destruct (volume_def index m); by rewrite build_volumes_loop_acc.
Qed.

Lemma build_volumes_loop_app index pre post :
  build_volumes_loop index (pre ++ post) [] [] =
  {| volumes := volumes (build_volumes_loop index pre [] []) ++
                volumes (build_volumes_loop (index + length pre) post [] []);
     volume_mounts :=
       volume_mounts (build_volumes_loop index pre [] []) ++
       volume_mounts (build_volumes_loop (index + length pre) post [] []) |}.
Proof.
  revert index. induction pre as [|m pre IH]; intros i.
  - simpl. rewrite Nat.add_0_r. by destruct (build_volumes_loop i post [] []).
  - rewrite <- app_comm_cons, !build_volumes_loop_cons, IH. simpl.
    by rewrite <- app_assoc, Nat.add_succ_r.
Qed.

Lemma volume_mounts_length index mounts :
  length (volume_mounts (build_volumes_loop index mounts [] [])) = length mounts.
Proof.
  revert index. induction mounts as [|m rest IH]; intros i; [done|].
  rewrite build_volumes_loop_cons. simpl. by rewrite IH.
Qed.

Lemma volume_mount_name index m :
  entry_name (VDict (volume_mount index m)) = Some (mount_name index m).
Proof.
  unfold volume_mount.
  by destruct (bool_decide _ || bool_decide _).
Qed.

Lemma volume_def_name index m v :
  volume_def index m = Some v -> entry_name v = Some (mount_name index m).
Proof.
  unfold volume_def. destruct (bool_decide _).
  - destruct (truthy (m_Source m)); [|done]. by intros [= <-].
  - by intros [= <-].
Qed.

Lemma volume_def_None index m : volume_def index m = None <-> sourceless_bind m.
Proof.
  unfold volume_def, sourceless_bind. case_bool_decide as Hb.
  - destruct (truthy (m_Source m)); split; try done. by intros [_ ?].
  - split; [done|]. by intros [? _].
Qed.

Lemma mount_names_from index mounts :
  entry_name <$> volume_mounts (build_volumes_loop index mounts [] []) =
  imap (fun i m => Some (mount_name (index + i) m)) mounts.
Proof.
  revert index. induction mounts as [|m rest IH]; intros i; [done|].
  rewrite build_volumes_loop_cons. cbn [volume_mounts imap].
  rewrite fmap_cons, volume_mount_name, IH, Nat.add_0_r. f_equal.
  apply imap_ext. intros j x _. simpl. by rewrite Nat.add_succ_r.
Qed.

Lemma volume_names_from index mounts :
  Forall (fun m => ~ sourceless_bind m) mounts ->
  entry_name <$> volumes (build_volumes_loop index mounts [] []) =
  imap (fun i m => Some (mount_name (index + i) m)) mounts.
Proof.
  revert index. induction mounts as [|m rest IH]; intros i Hall; [done|].
  inversion Hall as [|? ? Hm Hrest]; subst.
  rewrite build_volumes_loop_cons. cbn [volumes imap].
  destruct (volume_def i m) as [v|] eqn:Hv.
  - simpl. rewrite (volume_def_name _ _ _ Hv), (IH _ Hrest), Nat.add_0_r. f_equal.
    apply imap_ext. intros j x _. simpl. by rewrite Nat.add_succ_r.
  - by apply volume_def_None in Hv.
Qed.

End Volumes.

Lemma truthy_Some o s : truthy o = Some s <-> o = Some s /\ s <> EmptyString.
Proof.
  destruct o as [[|c t]|]; simpl; split; try done.
  - intros [[= <-] ?]. done.
  - intros [= <-]. done.
  - intros [[= <-] _]. done.
  - by intros [? _].
Qed.

Lemma truthy_None o : truthy o = None <-> o = None \/ o = Some EmptyString.
Proof. destruct o as [[|c t]|]; simpl; split; try done; auto; by intros [?|?]. Qed.

Lemma explicitly_read_only_decide m :
  bool_decide (m_RW m = Some false) || bool_decide (m_ReadOnly m = Some true) = true
  <-> explicitly_read_only m.
Proof.
  unfold explicitly_read_only.
  rewrite orb_true_iff, !bool_decide_eq_true. done.
Qed.

(** C7: the mount at position [i] of the list contributes the volume mount
    at position [i], with its derived name, its destination (["/data"] by
    default) and a [readOnly] key exactly when the descriptor marks it
    read-only; to the volumes it contributes nothing when it is a bind
    mount without source, a [hostPath] volume of its source when it is a
    bind mount with one ([DirectoryOrCreate] with a propagation setting,
    [Directory] without), and a [persistentVolumeClaim] volume claiming its
    derived name for every other kind. *)
Theorem build_volumes_mount (pre post : list mount) (m : mount) :
  let i := length pre in
  let n := mount_name i m in
  let r := build_volumes (pre ++ m :: post) in
  exists vm emitted,
    volume_mounts r !! i = Some (VDict vm) /\
    volumes r = volumes (build_volumes pre) ++ emitted ++
                volumes (build_volumes_loop (S i) post [] []) /\
    dict_get "name" vm = Some (VStr n) /\
    dict_get "mountPath" vm = Some (VStr (default "/data" (m_Destination m))) /\
    (explicitly_read_only m -> dict_get "readOnly" vm = Some (VBool true)) /\
    (~ explicitly_read_only m -> dict_get "readOnly" vm = None) /\
    (m_Type m = Some "bind" -> truthy (m_Source m) = None -> emitted = []) /\
    (forall source,
        m_Type m = Some "bind" -> truthy (m_Source m) = Some source ->
        emitted =
        [VDict [("name", VStr n);
                ("hostPath",
                 VDict [("path", VStr source);
                        ("type", VStr (match truthy (m_Propagation m) with
                                       | Some _ => "DirectoryOrCreate"
                                       | None => "Directory"
                                       end))])]]) /\
    (m_Type m <> Some "bind" ->
     emitted =
     [VDict [("name", VStr n);
             ("persistentVolumeClaim", VDict [("claimName", VStr n)])]]).
Proof.
  intros i n r. exists (volume_mount i m), (option_list (volume_def i m)).
  subst r. unfold build_volumes.
  rewrite build_volumes_loop_app, build_volumes_loop_cons. cbn [volumes volume_mounts].
  split.
  { rewrite lookup_app_r by (rewrite volume_mounts_length; done).
    by rewrite volume_mounts_length, Nat.sub_diag. }
  split; [done|].
  unfold volume_mount. fold n.
  destruct (bool_decide _ || bool_decide _) eqn:Hro.
  - apply explicitly_read_only_decide in Hro.
    repeat split; try done; unfold volume_def; fold n.
    + intros Hb Hs. rewrite bool_decide_true by done. by rewrite Hs.
    + intros src Hb Hs. rewrite bool_decide_true by done. by rewrite Hs.
    + intros Hb. by rewrite bool_decide_false by done.
  - assert (~ explicitly_read_only m) as Hnro.
    { intros H%explicitly_read_only_decide. congruence. }
    repeat split; try done; unfold volume_def; fold n.
    + intros Hb Hs. rewrite bool_decide_true by done. by rewrite Hs.
    + intros src Hb Hs. rewrite bool_decide_true by done. by rewrite Hs.
    + intros Hb. by rewrite bool_decide_false by done.
Qed.

Lemma build_volumes_mount_witness :
  volumes (build_volumes [bind_mount "/data" "/app/data"]) =
  [VDict [("name", VStr "data");
          ("hostPath", VDict [("path", VStr "/data"); ("type", VStr "Directory")])]].
Proof.
  destruct (build_volumes_mount [] [] (bind_mount "/data" "/app/data"))
    as (vm & emitted & _ & Hv & _ & _ & _ & _ & _ & Hbind & _).
  etransitivity; [exact Hv|].
  rewrite (Hbind "/data" eq_refl eq_refl). reflexivity.
Defined.

(** *** Names and the pairing of volumes with volume mounts *)

Section Names.

Lemma count_named_fmap n l :
  count_named n l = length (filter (fun x => x = n) (entry_name <$> l)).
Proof.
  unfold count_named. induction l as [|v l IH]; [done|].
  rewrite fmap_cons, !filter_cons.
  destruct (decide (entry_name v = n)); simpl; by rewrite IH.
Qed.

Lemma count_absent {A} `{EqDecision A} (x : A) (l : list A) :
  x ∉ l -> length (filter (fun y => y = x) l) = 0.
Proof.
  induction l as [|y l IH]; [done|].
  intros [Hy Hl]%not_elem_of_cons. rewrite filter_cons.
  rewrite decide_False by done. by apply IH.
Qed.

Lemma count_once {A} `{EqDecision A} (x : A) (l : list A) :
  NoDup l -> x ∈ l -> length (filter (fun y => y = x) l) = 1.
Proof.
  induction 1 as [|y l Hy Hl IH]; [by intros ?%elem_of_nil|].
  rewrite filter_cons. intros [->|Hx]%elem_of_cons.
  - rewrite decide_True by done. simpl. f_equal. by apply count_absent.
  - rewrite decide_False; [by apply IH|]. intros ->. done.
Qed.

Lemma str_digits n : all_chars Py.is_digit (Py.str n) = true.
Proof.
  unfold Py.str. induction (Nat.to_uint n) as [|d IH|d IH|d IH|d IH|d IH
                                               |d IH|d IH|d IH|d IH|d IH];
    simpl; by rewrite ?IH.
Qed.

Lemma str_nonempty n : Py.str n <> EmptyString.
Proof.
  unfold Py.str.
  assert (Nat.to_uint n <> Decimal.Nil) as Hn.
  { pose proof (Unsigned.to_of (Nat.to_uint n)) as E.
    rewrite Unsigned.of_to in E. rewrite E.
    apply DecimalFacts.unorm_nonnil. }
  by destruct (Nat.to_uint n).
Qed.

Lemma str_inj i j : Py.str i = Py.str j -> i = j.
Proof.
  unfold Py.str. intros E. apply Unsigned.to_uint_inj.
  pose proof (NilEmpty.usu (Nat.to_uint i)) as Hi.
  rewrite E, NilEmpty.usu in Hi. congruence.
Qed.

Lemma drop_end_app P a b :
  b <> EmptyString -> Py.drop_end P b = b -> Py.drop_end P (a +:+ b) = a +:+ b.
Proof.
  intros Hb E. induction a as [|c a IH]; [done|].
  change (String c a +:+ b) with (String c (a +:+ b)). simpl. rewrite IH.
  destruct (a +:+ b) eqn:Hab; [|done].
  destruct a; [destruct (Hb Hab)|discriminate Hab].
Qed.

Lemma drop_end_none P s :
  all_chars (fun c => negb (P c)) s = true -> Py.drop_end P s = s.
Proof.
  induction s as [|c t IH]; simpl; [done|].
  intros [Hc Ht]%andb_true_iff. rewrite (IH Ht).
  apply negb_true_iff in Hc. rewrite Hc. by destruct t.
Qed.

Lemma all_chars_impl (P Q : ascii -> bool) s :
  (forall c, P c = true -> Q c = true) ->
  all_chars P s = true -> all_chars Q s = true.
Proof.
  intros HPQ. induction s as [|c t IH]; simpl; [done|].
  intros [Hc Ht]%andb_true_iff. by rewrite (HPQ _ Hc), IH.
Qed.

Lemma digit_name_char c : Py.is_digit c = true -> name_char c = true.
Proof. unfold name_char. intros ->. by rewrite orb_true_r. Qed.

Lemma digit_not_hyphen c : Py.is_digit c = true -> negb (hyphen c) = true.
Proof. destruct c as [[] [] [] [] [] [] [] []]; vm_compute; congruence. Qed.

(** The fallback name of a mount is already a valid name. *)
Lemma sanitize_name_vol index :
  sanitize_name ("vol-" +:+ Py.str index) = "vol-" +:+ Py.str index.
Proof.
  rewrite sanitize_name_cleaned, cleaned_fixed; [done| | |].
  - rewrite all_chars_app. simpl.
    apply (all_chars_impl _ _ _ digit_name_char), str_digits.
  - done.
  - apply drop_end_app; [apply str_nonempty|].
    apply drop_end_none, (all_chars_impl _ _ _ digit_not_hyphen), str_digits.
Qed.

Lemma mount_name_anonymous index m :
  anonymous m -> mount_name index m = "vol-" +:+ Py.str index.
Proof.
  intros [Hn Hs]. unfold mount_name, or_str. rewrite Hn, Hs. simpl.
  apply sanitize_name_vol.
Qed.

End Names.

Example build_volumes_bind :
  build_volumes [bind_mount "/data" "/app/data"] =
  {| volumes :=
       [VDict [("name", VStr "data");
               ("hostPath", VDict [("path", VStr "/data"); ("type", VStr "Directory")])]];
     volume_mounts :=
       [VDict [("name", VStr "data"); ("mountPath", VStr "/app/data")]] |}.
Proof. reflexivity. Qed.

Example build_volumes_named :
  build_volumes [named_volume "cache" "/cache"] =
  {| volumes :=
       [VDict [("name", VStr "cache");
               ("persistentVolumeClaim", VDict [("claimName", VStr "cache")])]];
     volume_mounts :=
       [VDict [("name", VStr "cache"); ("mountPath", VStr "/cache")]] |}.
Proof. reflexivity. Qed.

(** C8, as the specification states it, fails: the same volume mounted at
    two places gives two volume definitions of one name. *)
Lemma one_volume_per_mount_fails :
  ~ one_volume_per_mount
      (build_volumes [named_volume "cache" "/a"; named_volume "cache" "/b"]).
Proof.
  intros H.
  assert (VDict [("name", VStr "cache"); ("mountPath", VStr "/a")] ∈
          volume_mounts
            (build_volumes [named_volume "cache" "/a"; named_volume "cache" "/b"]))
    as Hin by (vm_compute; left).
  apply H in Hin. vm_compute in Hin. discriminate Hin.
Qed.

(** A bind mount without source keeps its volume mount and gets no volume. *)
Example sourceless_bind_mount :
  build_volumes [bare_mount "bind"] =
  {| volumes := [];
     volume_mounts := [VDict [("name", VStr "vol-0"); ("mountPath", VStr "/data")]] |}.
Proof. reflexivity. Qed.

(** C8 (amended): where no mount is a bind mount without source, the
    volumes and the volume mounts carry the same names position by
    position; each volume mount then has exactly one volume definition of
    its name whenever the derived names are pairwise distinct. *)
Theorem volumes_match_mounts (mounts : list mount) :
  Forall (fun m => ~ sourceless_bind m) mounts ->
  entry_name <$> volumes (build_volumes mounts) =
  entry_name <$> volume_mounts (build_volumes mounts) /\
  (distinct_mount_names (build_volumes mounts) ->
   one_volume_per_mount (build_volumes mounts)).
Proof.
  intros Hall.
  assert (entry_name <$> volumes (build_volumes mounts) =
          entry_name <$> volume_mounts (build_volumes mounts)) as E.
  { unfold build_volumes. by rewrite volume_names_from, mount_names_from. }
  split; [done|].
  unfold distinct_mount_names, one_volume_per_mount.
  intros Hnd vm Hvm. rewrite count_named_fmap, E.
  apply count_once; [done|]. by apply list_elem_of_fmap_2.
Qed.

Lemma volumes_match_mounts_witness :
  one_volume_per_mount
    (build_volumes [bind_mount "/data" "/app/data"; named_volume "cache" "/cache"]).
Proof.
  apply (volumes_match_mounts
           [bind_mount "/data" "/app/data"; named_volume "cache" "/cache"]).
  - repeat constructor; intros [H1 H2]; vm_compute in H1, H2; discriminate.
  - unfold distinct_mount_names. vm_compute.
    repeat constructor; rewrite ?elem_of_cons, ?elem_of_nil; intros H; decompose [or] H; try discriminate; done.
Defined.

(** C9, as the specification states it, fails: two mounts of one name are
    given the same derived name. *)
Lemma distinct_mount_names_fails :
  ~ distinct_mount_names
      (build_volumes [named_volume "cache" "/a"; named_volume "cache" "/b"]).
Proof.
  unfold distinct_mount_names.
  change (entry_name <$> volume_mounts
            (build_volumes [named_volume "cache" "/a"; named_volume "cache" "/b"]))
    with [Some "cache"; Some "cache"].
  intros [Hn _]%NoDup_cons. apply Hn. left.
Qed.

(** An index-based name can also meet a name that was given. *)
Example fallback_name_taken :
  entry_name <$> volume_mounts (build_volumes [named_volume "vol-1" "/a"; bare_mount "volume"])
  = [Some "vol-1"; Some "vol-1"].
Proof. reflexivity. Qed.

(** C9 (amended): the volume mounts carry the derived names of the mounts
    in the order of the input, one per mount; the mounts that have neither
    name nor source are named ["vol-{i}"] after their index, and these
    names are pairwise distinct among themselves. *)
Theorem mount_names_in_order (mounts : list mount) :
  entry_name <$> volume_mounts (build_volumes mounts) =
  imap (fun i m => Some (mount_name i m)) mounts /\
  forall i j mi mj,
    mounts !! i = Some mi -> mounts !! j = Some mj ->
    anonymous mi -> anonymous mj -> i <> j ->
    mount_name i mi = "vol-" +:+ Py.str i /\
    mount_name i mi <> mount_name j mj.
Proof.
  split; [apply mount_names_from|].
  intros i j mi mj _ _ Hi Hj Hij.
  rewrite !mount_name_anonymous by done. split; [done|].
  intros E. apply Hij, str_inj. by simplify_eq.
Qed.

Lemma mount_names_in_order_witness :
  mount_name 0 (bare_mount "volume") = "vol-0" /\
  mount_name 0 (bare_mount "volume") <> mount_name 1 (bare_mount "bind").
Proof.
  apply (proj2 (mount_names_in_order [bare_mount "volume"; bare_mount "bind"])
           0 1 (bare_mount "volume") (bare_mount "bind"));
    [reflexivity|reflexivity|by split|by split|lia].
Defined.

(** ** PortMapper *)

Section Ports.

Lemma split_nonempty sep s : Py.split sep s <> [].
Proof.
  destruct s as [|c t]; simpl; [done|].
  destruct (Ascii.eqb c sep); [done|]. by destruct (Py.split sep t).
Qed.

Lemma split_none sep s : Py.char_in s sep = false -> Py.split sep s = [s].
Proof.
  induction s as [|c t IH]; simpl; [done|].
  rewrite Ascii.eqb_sym. intros [-> Ht]%orb_false_iff. by rewrite IH.
Qed.

Lemma split_at_first sep a b :
  Py.char_in a sep = false ->
  Py.split sep (a +:+ String sep b) = a :: Py.split sep b.
Proof.
  induction a as [|c a IH]; simpl.
  - intros _. by rewrite Ascii.eqb_refl.
  - rewrite Ascii.eqb_sym. intros [-> Ha]%orb_false_iff. by rewrite IH.
Qed.

Lemma split_one sep s b :
  Py.split sep s = [b] -> s = b /\ Py.char_in s sep = false.
Proof.
  revert b. induction s as [|c t IH]; intros b; simpl.
  - by intros [= <-].
  - rewrite (Ascii.eqb_sym sep). destruct (Ascii.eqb c sep).
    + intros [= _ E]. by apply split_nonempty in E.
    + destruct (Py.split sep t) as [|h r] eqn:E; [by apply split_nonempty in E|].
      intros [= <- ->]. by destruct (IH _ eq_refl) as [-> ->].
Qed.

Lemma split_two sep s a b :
  Py.split sep s = [a; b] ->
  s = a +:+ String sep b /\
  Py.char_in a sep = false /\ Py.char_in b sep = false.
Proof.
  revert a. induction s as [|c t IH]; intros a; simpl; [done|].
  destruct (Ascii.eqb c sep) eqn:Hc.
  - intros [= <- [-> Hb]%split_one]. apply Ascii.eqb_eq in Hc as ->. done.
  - destruct (Py.split sep t) as [|h r] eqn:E; [done|].
    intros [= <- ->]. destruct (IH _ eq_refl) as (-> & Hh & Hb).
    simpl. by rewrite (Ascii.eqb_sym sep), Hc, Hh.
Qed.

Lemma unpack2_Ok parts a b : Py.unpack2 parts = Ok (a, b) <-> parts = [a; b].
Proof.
  destruct parts as [|x [|y [|z l]]]; simpl; split; try done.
  - by intros [= -> ->].
  - by intros [= -> ->].
Qed.

Lemma unpack2_Raise parts e : Py.unpack2 parts = Raise e -> e = ValueError.
Proof. destruct parts as [|x [|y [|z l]]]; simpl; congruence. Qed.

Lemma two_parts_key cport proto :
  Py.char_in cport "/" = false -> Py.char_in proto "/" = false ->
  Py.split "/" (cport +:+ "/" +:+ proto) = [cport; proto].
Proof.
  intros Hc Hp. change ("/" +:+ proto) with (String "/" proto).
  by rewrite split_at_first, split_none.
Qed.

(** A key that does not split into exactly two parts is passed over. *)
Lemma port_entry_skips exposed bindings :
  two_parts exposed = false -> port_entry exposed bindings = Ok None.
Proof.
  unfold two_parts, port_entry.
  destruct (Py.unpack2 (Py.split "/" exposed)) as [[a b]|e] eqn:E; [done|].
  by rewrite (unpack2_Raise _ _ E).
Qed.

Lemma port_entry_Some exposed bindings port :
  port_entry exposed bindings = Ok (Some port) ->
  two_parts exposed = true /\ port_of (exposed, bindings) port.
Proof.
  unfold two_parts, port_entry, port_of.
  destruct (Py.unpack2 (Py.split "/" exposed)) as [[a b]|e] eqn:E.
  - apply unpack2_Ok, split_two in E as (-> & Ha & Hb).
    destruct (Py.int a) as [n|e] eqn:Hn; simpl; [|done].
    intros H. split; [done|]. exists a, b, n. simpl.
    destruct bindings as [[|bd l]|]; simpl in *.
    + injection H as <-. by exists n.
    + destruct (truthy (HostPort bd)) as [h|]; simpl in H.
      * destruct (Py.int h) as [p|e] eqn:Hp; simpl in H; [|done].
        injection H as <-. by exists p.
      * injection H as <-. by exists n.
    + injection H as <-. by exists n.
  - rewrite (unpack2_Raise _ _ E). done.
Qed.

Lemma port_entry_None exposed bindings :
  port_entry exposed bindings = Ok None -> two_parts exposed = false.
Proof.
  unfold two_parts, port_entry.
  destruct (Py.unpack2 (Py.split "/" exposed)) as [[a b]|e] eqn:E; [|done].
  destruct (Py.int a) as [n|e]; simpl; [|done].
  destruct bindings as [[|bd l]|]; simpl; try done.
  destruct (truthy (HostPort bd)) as [h|]; simpl; [|done].
  by destruct (Py.int h).
Qed.

Lemma port_entry_of cport proto bindings n p :
  Py.char_in cport "/" = false -> Py.char_in proto "/" = false ->
  Py.int cport = Ok n ->
  match first_host_port bindings with
  | Some h => Py.int h = Ok p
  | None => p = n
  end ->
  port_entry (cport +:+ "/" +:+ proto) bindings =
  Ok (Some (VDict [("name", VStr ("port-" +:+ cport +:+ "-" +:+ proto));
                   ("port", VInt p);
                   ("targetPort", VInt n);
                   ("protocol", VStr (Py.upper proto))])).
Proof.
  intros Hc Hp Hn Hh. unfold port_entry.
  rewrite two_parts_key by done. simpl. rewrite Hn. simpl.
  destruct bindings as [[|bd l]|]; simpl in *; try by subst.
  destruct (truthy (HostPort bd)) as [h|]; simpl; [|by subst].
  by rewrite Hh.
Qed.

(** The loop only ever appends to its accumulator. *)
Lemma collect_ports_loop_acc items ports :
  collect_ports_loop items ports =
  found ← collect_ports_loop items []; Ok (ports ++ found).
Proof.
  revert ports. induction items as [|[exposed bindings] rest IH]; intros ports; simpl.
  - by rewrite app_nil_r.
  - destruct (port_entry exposed bindings) as [[entry|]|e]; simpl; try done.
    rewrite (IH (ports ++ [entry])), (IH [entry]).
    destruct (collect_ports_loop rest []); simpl; [|done].
    by rewrite <- app_assoc.
Qed.

Lemma collect_ports_Some items :
  collect_ports (Some items) = collect_ports_loop items [].
Proof. by destruct items. Qed.

Lemma collect_ports_loop_cons exposed bindings rest :
  collect_ports_loop ((exposed, bindings) :: rest) [] =
  entry ← port_entry exposed bindings;
  found ← collect_ports_loop rest [];
  Ok (option_list entry ++ found).
Proof.
  simpl. destruct (port_entry exposed bindings) as [[entry|]|e]; simpl; try done.
  - by rewrite collect_ports_loop_acc.
  - by destruct (collect_ports_loop rest []).
Qed.

Lemma collect_ports_loop_app pre post :
  collect_ports_loop (pre ++ post) [] =
  found ← collect_ports_loop pre [];
  more ← collect_ports_loop post [];
  Ok (found ++ more).
Proof.
  induction pre as [|[exposed bindings] pre IH].
  - simpl. by destruct (collect_ports_loop post []).
  - rewrite <- app_comm_cons, !collect_ports_loop_cons, IH.
    destruct (port_entry exposed bindings) as [entry|e]; simpl; [|done].
    destruct (collect_ports_loop pre []); simpl; [|done].
    destruct (collect_ports_loop post []); simpl; [|done].
    by rewrite app_assoc.
Qed.

(** What a successful run returns: one entry per key of two parts, in the
    order of the map. *)
Lemma collect_ports_loop_Ok items ports :
  collect_ports_loop items [] = Ok ports ->
  Forall2 port_of (filter (fun item => two_parts (fst item) = true) items) ports.
Proof.
  revert ports. induction items as [|[exposed bindings] rest IH]; intros ports.
  - intros [= <-]. constructor.
  - rewrite collect_ports_loop_cons, filter_cons.
    destruct (port_entry exposed bindings) as [[entry|]|e] eqn:E; simpl; [| |done].
    + apply port_entry_Some in E as [Htwo Hof].
      destruct (collect_ports_loop rest []) as [found|]; simpl; [|done].
      intros [= <-]. rewrite decide_True by done. constructor; auto.
    + apply port_entry_None in E.
      destruct (collect_ports_loop rest []) as [found|]; simpl; [|done].
      intros [= <-]. rewrite decide_False by (simpl; congruence). auto.
Qed.

End Ports.

(** *** Numbers: [int] reads back what [str] prints *)

Section Numbers.

Lemma digits_string_of_uint d acc after_digit :
  d <> Decimal.Nil \/ after_digit = true ->
  Py.digits (Z.of_nat acc) after_digit (NilEmpty.string_of_uint d) =
  Some (Z.of_nat (Nat.of_uint_acc d acc)).
Proof.
  revert acc after_digit.
  induction d as [|d IH|d IH|d IH|d IH|d IH|d IH|d IH|d IH|d IH|d IH];
    intros acc b Hd;
    [destruct Hd as [?| ->]; done|..];
    cbn [NilEmpty.string_of_uint Py.digits Nat.of_uint_acc];
    match goal with
    | |- context [Py.is_digit ?c] =>
        change (Py.is_digit c) with true; cbv iota;
        let v := eval vm_compute in (Py.digit_val c) in
        change (Py.digit_val c) with v
    end;
    rewrite <- (IH _ true) by auto; f_equal;
    rewrite Nat.tail_mul_spec; lia.
Qed.

Lemma int_unsigned c t :
  Py.is_digit c = true ->
  Py.strip_if Py.is_space (String c t) = String c t ->
  Py.int (String c t) =
  from_option Ok (Raise ValueError) (Py.digits 0 false (String c t)).
Proof.
  intros Hc E. unfold Py.int. rewrite E. clear E.
  destruct c as [[] [] [] [] [] [] [] []]; vm_compute in Hc; try discriminate Hc;
    reflexivity.
Qed.

Lemma digit_not_space c : Py.is_digit c = true -> negb (Py.is_space c) = true.
Proof. destruct c as [[] [] [] [] [] [] [] []]; vm_compute; congruence. Qed.

(** Every port number, as it is printed, is a literal [int] accepts. *)
Lemma int_str n : Py.int (Py.str n) = Ok (Z.of_nat n).
Proof.
  pose proof (str_digits n) as Hd. pose proof (str_nonempty n) as Hne.
  destruct (Py.str n) as [|c t] eqn:E; [done|].
  simpl in Hd. apply andb_true_iff in Hd as [Hc Ht].
  rewrite int_unsigned; [|done|].
  - rewrite <- E. unfold Py.str.
    rewrite (digits_string_of_uint _ 0) by (right + left; unfold Py.str in E;
      destruct (Nat.to_uint n); done).
    simpl. f_equal. f_equal. apply Unsigned.of_to.
  - apply strip_if_fixed.
    + simpl. apply digit_not_space, negb_true_iff in Hc. by rewrite Hc.
    + apply drop_end_none, (all_chars_impl _ _ _ digit_not_space).
      simpl. by rewrite Hc, Ht.
Qed.

Lemma digits_no_slash s : all_chars Py.is_digit s = true -> Py.char_in s "/" = false.
Proof.
  induction s as [|c t IH]; simpl; [done|].
  intros [Hc ->%IH]%andb_true_iff. rewrite orb_false_r.
  destruct c as [[] [] [] [] [] [] [] []]; vm_compute in Hc; try discriminate Hc;
    reflexivity.
Qed.

(** An exposed port of any number, not published: the loop returns its
    entry, with [port] and [targetPort] that number. *)
Lemma port_entry_numbered n proto :
  Py.char_in proto "/" = false ->
  port_entry (Py.str n +:+ "/" +:+ proto) unpublished =
  Ok (Some (VDict [("name", VStr ("port-" +:+ Py.str n +:+ "-" +:+ proto));
                   ("port", VInt (Z.of_nat n));
                   ("targetPort", VInt (Z.of_nat n));
                   ("protocol", VStr (Py.upper proto))])).
Proof.
  intros Hp. apply port_entry_of; [|done|apply int_str|done].
  apply digits_no_slash, str_digits.
Qed.

End Numbers.

(** A key that does not split into exactly two parts contributes nothing. *)
Lemma collect_ports_skips pre post exposed bindings :
  two_parts exposed = false ->
  collect_ports (Some (pre ++ (exposed, bindings) :: post)) =
  collect_ports (Some (pre ++ post)).
Proof.
  intros Htwo. rewrite !collect_ports_Some, !collect_ports_loop_app.
  rewrite collect_ports_loop_cons, port_entry_skips by done. simpl.
  destruct (collect_ports_loop pre []); simpl; [|done].
  by destruct (collect_ports_loop post []).
Qed.

Example keys_not_of_two_parts :
  two_parts "80" = false /\ two_parts "80/tcp/x" = false /\ two_parts "" = false.
Proof. by vm_compute. Qed.

(** C5: [collect_ports] is not total.  A key of two parts whose first part
    is not a number makes [int] raise [ValueError] outside the [try] that
    guards the split, and the exception leaves the function. *)
Theorem collect_ports_raises :
  collect_ports (Some [("http/tcp", Some [])]) = Raise ValueError.
Proof. reflexivity. Qed.

(** The same happens for a host port that is not a number. *)
Example collect_ports_raises_host_port :
  collect_ports (Some [("80/tcp", published "http")]) = Raise ValueError.
Proof. reflexivity. Qed.

(** C6: an entry [cport/proto] of the exposure map whose port reads as the
    number [n] yields, at its place among the entries, the port entry
    named [port-cport-proto] with [targetPort] [n] and the upper-cased
    protocol; its [port] is [n], unless the binding list is not empty and
    its first element declares a host port, in which case [port] is the
    number that host port reads as and [targetPort] is still [n].  The
    protocol is over the characters whose capital is in the alphabet of
    the model, where [Py.upper] is [str.upper]. *)
Theorem collect_ports_entry (pre post : port_map) (cport proto : string)
    (bindings : option (list binding)) (n p : Z) (before after : list value) :
  Py.char_in cport "/" = false -> Py.char_in proto "/" = false ->
  all_chars Py.has_capital proto = true ->
  Py.int cport = Ok n ->
  match first_host_port bindings with
  | Some host_port => Py.int host_port = Ok p
  | None => p = n
  end ->
  collect_ports (Some pre) = Ok before ->
  collect_ports (Some post) = Ok after ->
  collect_ports (Some (pre ++ (cport +:+ "/" +:+ proto, bindings) :: post)) =
  Ok (before ++
      VDict [("name", VStr ("port-" +:+ cport +:+ "-" +:+ proto));
             ("port", VInt p);
             ("targetPort", VInt n);
             ("protocol", VStr (Py.upper proto))] :: after).
Proof.
  intros Hc Hp _ Hn Hh. rewrite !collect_ports_Some. intros Hpre Hpost.
  rewrite collect_ports_loop_app, collect_ports_loop_cons, Hpre.
  rewrite (port_entry_of _ _ _ n p) by done. simpl. by rewrite Hpost.
Qed.

Lemma collect_ports_entry_witness :
  collect_ports (Some [("80/tcp", published "8080")]) =
  Ok [VDict [("name", VStr "port-80-tcp"); ("port", VInt 8080);
             ("targetPort", VInt 80); ("protocol", VStr "TCP")]].
Proof.
  apply (collect_ports_entry [] [] "80" "tcp" (published "8080") 80 8080 [] []);
    reflexivity.
Defined.

(** The sharp s has a capital of two letters. *)
Example collect_ports_sharp_s :
  collect_ports (Some [("80/" +:+ String "223" EmptyString, unpublished)]) =
  Ok [VDict [("name", VStr ("port-80-" +:+ String "223" EmptyString));
             ("port", VInt 80); ("targetPort", VInt 80); ("protocol", VStr "SS")]].
Proof. reflexivity. Qed.

Example collect_ports_unpublished :
  collect_ports (Some [("80/tcp", Some [])]) =
  Ok [VDict [("name", VStr "port-80-tcp"); ("port", VInt 80);
             ("targetPort", VInt 80); ("protocol", VStr "TCP")]].
Proof. reflexivity. Qed.

Lemma collect_ports_entry_example :
  collect_ports (Some [("80/tcp", published "8080")]) =
  Ok [VDict [("name", VStr "port-80-tcp"); ("port", VInt 8080);
             ("targetPort", VInt 80); ("protocol", VStr "TCP")]].
Proof. reflexivity. Qed.

(** ** ManifestBuilder *)

Section Manifest.

Lemma dict_get_set k v d : dict_get k (dict_set k v d) = Some v.
Proof.
  induction d as [|[k' v'] r IH]; simpl.
  - by rewrite String.eqb_refl.
  - destruct (String.eqb k' k) eqn:E; simpl; [by rewrite String.eqb_refl|].
    by rewrite E.
Qed.

Lemma container_port_port item port :
  port_of item port ->
  exists cp, container_port port = Ok cp /\
             container_port_of port cp /\ exposes item cp.
Proof.
  intros (cport & proto & n & p & Hkey & Hc & Hp & Hn & _ & ->).
  eexists. split; [reflexivity|]. split.
  - by eexists _, _, _.
  - exists cport, proto, n. repeat split; try done. by eexists.
Qed.

Lemma container_ports_ports items ports :
  Forall2 port_of items ports ->
  exists cps, mapM container_port ports = Ok cps /\
              Forall2 container_port_of ports cps /\ Forall2 exposes items cps.
Proof.
  induction 1 as [|item port items ports Hof _ (cps & E & Hcp & Hex)].
  - exists []. by repeat split; constructor.
  - destruct (container_port_port _ _ Hof) as (cp & Ecp & ? & ?).
    exists (cp :: cps). simpl. rewrite Ecp. simpl. rewrite E.
    by repeat split; constructor.
Qed.

Lemma container_spec_of_Ok cfg name image env_vars mounts items ports :
  Forall2 port_of items ports ->
  exists container_spec,
    container_spec_of cfg name image env_vars mounts ports = Ok container_spec /\
    (ports <> [] ->
     exists cps, dict_get "ports" container_spec = Some (VList cps) /\
                 Forall2 container_port_of ports cps /\ Forall2 exposes items cps).
Proof.
  intros Hof. unfold container_spec_of.
  destruct (container_ports_ports _ _ Hof) as (cps & E & Hcp & Hex).
  destruct ports as [|port ports].
  - simpl. eexists. split; [done|]. by intros [].
  - change (nonempty (port :: ports)) with true. cbv iota. rewrite E.
    eexists. split; [reflexivity|]. intros _. exists cps.
    by rewrite dict_get_set.
Qed.

Lemma deployment_of_kind name ns cs mounts :
  get_in ["kind"] (deployment_of name ns cs mounts) = Some (VStr "Deployment").
Proof. unfold deployment_of. by destruct (nonempty (volumes mounts)). Qed.

Lemma deployment_of_labels name ns cs mounts :
  get_in ["spec"; "template"; "metadata"; "labels"] (deployment_of name ns cs mounts)
  = Some (VDict [("app", VStr name)]).
Proof. unfold deployment_of. by destruct (nonempty (volumes mounts)). Qed.

Lemma deployment_of_containers name ns cs mounts :
  get_in ["spec"; "template"; "spec"; "containers"] (deployment_of name ns cs mounts)
  = Some (VList [VDict cs]).
Proof. unfold deployment_of. by destruct (nonempty (volumes mounts)). Qed.

(** The run of the builder once the ports are known. *)
Lemma build_k8s_documents_Ok cd ns ports :
  collect_ports (exposure_map cd) = Ok ports ->
  exists env_vars container_spec,
    transform_env (default [] (Env (default no_config (Config cd)))) = Ok env_vars /\
    container_spec_of (default no_config (Config cd)) (container_name_of cd)
      (default "image:latest" (Image (default no_config (Config cd))))
      env_vars (build_volumes (default [] (Mounts cd))) ports = Ok container_spec /\
    build_k8s_documents cd ns =
    Ok (deployment_of (container_name_of cd) ns container_spec
          (build_volumes (default [] (Mounts cd))) ::
        if nonempty ports then [service_of (container_name_of cd) ns ports] else []) /\
    (ports <> [] ->
     exists cps, dict_get "ports" container_spec = Some (VList cps) /\
                 Forall2 container_port_of ports cps /\
                 Forall2 exposes (exposed_items cd) cps).
Proof.
  intros Hports.
  destruct (transform_env_loop_spec
              (default [] (Env (default no_config (Config cd)))) [])
    as (env_vars & Henv & _).
  assert (Forall2 port_of (exposed_items cd) ports) as Hof.
  { unfold exposed_items. destruct (exposure_map cd) as [items|].
    - rewrite collect_ports_Some in Hports. by apply collect_ports_loop_Ok.
    - injection Hports as <-. constructor. }
  destruct (container_spec_of_Ok (default no_config (Config cd)) (container_name_of cd)
              (default "image:latest" (Image (default no_config (Config cd))))
              env_vars (build_volumes (default [] (Mounts cd))) _ _ Hof)
    as (cs & Hcs & Hcps).
  exists env_vars, cs. repeat split; try done.
  unfold build_k8s_documents. fold (exposure_map cd). fold (container_name_of cd).
  unfold transform_env. rewrite Henv. simpl. rewrite Hports. simpl.
  rewrite Hcs. simpl. by destruct (nonempty ports).
Qed.

End Manifest.

(** C1: once the port list is derived, [build_k8s_documents] returns the
    Deployment alone when the list is empty and the Deployment followed by
    the Service when it is not; the Service is of type [ClusterIP], is
    named [{container-name}-svc], and selects the label [app:
    container-name] that the Deployment gives its pod template. *)
Theorem build_k8s_documents_count (cd : container_details) (namespace : string)
    (ports : list value) :
  collect_ports (exposure_map cd) = Ok ports ->
  exists deployment,
    get_in ["kind"] deployment = Some (VStr "Deployment") /\
    get_in ["spec"; "template"; "metadata"; "labels"] deployment =
      Some (VDict [("app", VStr (container_name_of cd))]) /\
    (ports = [] -> build_k8s_documents cd namespace = Ok [deployment]) /\
    (ports <> [] ->
     exists service,
       build_k8s_documents cd namespace = Ok [deployment; service] /\
       get_in ["kind"] service = Some (VStr "Service") /\
       get_in ["spec"; "type"] service = Some (VStr "ClusterIP") /\
       get_in ["metadata"; "name"] service =
         Some (VStr (container_name_of cd +:+ "-svc")) /\
       get_in ["spec"; "selector"] service =
         Some (VDict [("app", VStr (container_name_of cd))])).
Proof.
  intros Hports.
  destruct (build_k8s_documents_Ok cd namespace ports Hports)
    as (env_vars & cs & _ & _ & Hdocs & _).
  eexists. split; [apply deployment_of_kind|].
  split; [apply deployment_of_labels|]. split.
  - intros ->. exact Hdocs.
  - intros Hne. exists (service_of (container_name_of cd) namespace ports).
    split; [|by repeat split].
    rewrite Hdocs. by destruct ports.
Qed.

Lemma build_k8s_documents_count_witness :
  exists deployment service,
    build_k8s_documents (container_on "My_App!!" (Some [("80/tcp", published "8080")]))
      "default" = Ok [deployment; service] /\
    get_in ["metadata"; "name"] service = Some (VStr "my-app-svc") /\
    get_in ["spec"; "selector"] service =
    get_in ["spec"; "template"; "metadata"; "labels"] deployment.
Proof.
  destruct (build_k8s_documents_count
              (container_on "My_App!!" (Some [("80/tcp", published "8080")]))
              "default" _ collect_ports_entry_example)
    as (deployment & _ & Hlabels & _ & Htwo).
  destruct Htwo as (service & Hdocs & _ & _ & Hname & Hsel); [done|].
  exists deployment, service. split; [exact Hdocs|]. split; [exact Hname|].
  by rewrite Hsel, Hlabels.
Defined.

Example build_k8s_documents_no_ports :
  exists deployment,
    build_k8s_documents (container_on "web" None) "default" = Ok [deployment].
Proof. by eexists. Qed.

Example build_k8s_documents_raises :
  build_k8s_documents (container_on "web" (Some [("http/tcp", unpublished)])) "default"
  = Raise ValueError.
Proof. reflexivity. Qed.

(** C10: where ports were derived, the container spec of the Deployment
    lists one container port per port of the Service, in the same order,
    each repeating the [targetPort] and the protocol of its port; that
    number is the one the key of the exposure map reads as, whatever the
    bindings of the key declare. *)
Theorem container_ports_are_target_ports (cd : container_details)
    (namespace : string) (ports : list value) :
  collect_ports (exposure_map cd) = Ok ports -> ports <> [] ->
  exists deployment service container_spec container_ports,
    build_k8s_documents cd namespace = Ok [deployment; service] /\
    get_in ["spec"; "ports"] service = Some (VList ports) /\
    get_in ["spec"; "template"; "spec"; "containers"] deployment =
      Some (VList [VDict container_spec]) /\
    dict_get "ports" container_spec = Some (VList container_ports) /\
    Forall2 container_port_of ports container_ports /\
    Forall2 exposes (exposed_items cd) container_ports.
Proof.
  intros Hports Hne.
  destruct (build_k8s_documents_Ok cd namespace ports Hports)
    as (env_vars & cs & _ & _ & Hdocs & Hcps).
  destruct (Hcps Hne) as (cps & Hget & Hcp & Hex).
  exists (deployment_of (container_name_of cd) namespace cs
            (build_volumes (default [] (Mounts cd)))),
    (service_of (container_name_of cd) namespace ports), cs, cps.
  split.
  - rewrite Hdocs. by destruct ports.
  - split; [done|]. split; [apply deployment_of_containers|]. done.
Qed.

Lemma container_ports_are_target_ports_witness :
  exists deployment service container_spec container_ports,
    build_k8s_documents (container_on "web" (Some [("80/tcp", published "8080")]))
      "default" = Ok [deployment; service] /\
    get_in ["spec"; "template"; "spec"; "containers"] deployment =
      Some (VList [VDict container_spec]) /\
    dict_get "ports" container_spec = Some (VList container_ports) /\
    Forall2 container_port_of
      [VDict [("name", VStr "port-80-tcp"); ("port", VInt 8080);
              ("targetPort", VInt 80); ("protocol", VStr "TCP")]]
      container_ports.
Proof.
  destruct (container_ports_are_target_ports
              (container_on "web" (Some [("80/tcp", published "8080")]))
              "default" _ collect_ports_entry_example)
    as (deployment & service & cs & cps & Hdocs & _ & Hcs & Hget & Hcp & _); [done|].
  by exists deployment, service, cs, cps.
Defined.

Example container_ports_example :
  (d ← build_k8s_documents (container_on "web" (Some [("80/tcp", published "8080")]))
         "default";
   Ok (head d ≫= get_in ["spec"; "template"; "spec"; "containers"])) =
  Ok (Some (VList [VDict [("name", VStr "web"); ("image", VStr "nginx:1.25");
                          ("env", VList [VDict [("name", VStr "A"); ("value", VStr "1")];
                                         VDict [("name", VStr "B"); ("value", VStr "")]]);
                          ("ports", VList [VDict [("containerPort", VInt 80);
                                                  ("protocol", VStr "TCP")]])]])).
Proof. reflexivity. Qed.

(** * Further properties of the engine *)

(** ** NameSanitizer: fixed points and length *)

Section SanitizerMore.

Lemma alnum_not_hyphen c : Spec.alnum c = true -> hyphen c = false.
Proof. destruct c as [[] [] [] [] [] [] [] []]; vm_compute; congruence. Qed.

Lemma name_tail_inv t :
  Spec.name_tail t = true ->
  all_chars name_char t = true /\ Py.drop_end hyphen t = t.
Proof.
  induction t as [|d u IH]; [done|].
  destruct u as [|e v].
  - intros Hd. change (Spec.alnum d = true) in Hd. split.
    + simpl. by rewrite (alnum_name_char _ Hd).
    + cbn [Py.drop_end]. by rewrite (alnum_not_hyphen _ Hd).
  - change (Spec.name_tail (String d (String e v)))
      with (name_char d && Spec.name_tail (String e v)).
    intros [Hd Hu]%andb_true_iff. destruct (IH Hu) as [Hall Hdrop].
    split.
    + change (all_chars name_char (String d (String e v)))
        with (name_char d && all_chars name_char (String e v)).
      by rewrite Hd, Hall.
    + change (Py.drop_end hyphen (String d (String e v))) with
        (match Py.drop_end hyphen (String e v) with
         | EmptyString => if hyphen d then EmptyString else String d EmptyString
         | t' => String d t'
         end).
      by rewrite Hdrop.
Qed.

Lemma name_re_inv s :
  Spec.name_re s = true ->
  s <> EmptyString /\ all_chars name_char s = true /\
  Py.skip_while hyphen s = s /\ Py.drop_end hyphen s = s.
Proof.
  destruct s as [|c t]; [done|]. simpl Spec.name_re.
  intros [Hc Ht]%andb_true_iff. destruct (name_tail_inv _ Ht) as [Hall Hdrop].
  pose proof (alnum_not_hyphen _ Hc) as Hh.
  split; [done|]. split; [|split].
  - simpl. by rewrite (alnum_name_char _ Hc), Hall.
  - by apply skip_while_head.
  - destruct t as [|d u].
    + cbn [Py.drop_end]. by rewrite Hh.
    + change (Py.drop_end hyphen (String c (String d u))) with
        (match Py.drop_end hyphen (String d u) with
         | EmptyString => if hyphen c then EmptyString else String c EmptyString
         | t' => String c t'
         end).
      by rewrite Hdrop.
Qed.

Lemma sanitize_name_valid name : Spec.name_re (sanitize_name name) = true.
Proof.
  destruct (sanitize_name_shape name) as [->|[-> Hne]]; [done|].
  apply name_re_stripped; auto using cleaned_all, cleaned_skip, cleaned_drop.
Qed.


Lemma drop_end_length P s : String.length (Py.drop_end P s) <= String.length s.
Proof.
  induction s as [|c t IH]; simpl; [done|].
  destruct (Py.drop_end P t); [destruct (P c)|]; simpl in *; lia.
Qed.



End SanitizerMore.

(** X1: the names [sanitize_name] leaves unchanged are exactly the strings
    that match [^[a-z0-9]([a-z0-9-]*[a-z0-9])?$]. *)
Theorem sanitize_name_fixed_points (s : string) :
  sanitize_name s = s <-> Spec.name_re s = true.
Proof.
  split.
  - intros <-. apply sanitize_name_valid.
  - intros (Hne & Hall & Hskip & Hdrop)%name_re_inv.
    rewrite sanitize_name_cleaned, cleaned_fixed by done. by destruct s.
Qed.


Lemma sanitize_name_fixed_points_witness : sanitize_name "my-app" = "my-app".
Proof. apply (proj2 (sanitize_name_fixed_points "my-app")). reflexivity. Defined.

(** ** VolumeMapper: what the two lists have in common *)

Section VolumesMore.

Lemma volume_names_sublist index mounts :
  sublist (entry_name <$> volumes (build_volumes_loop index mounts [] []))
          (entry_name <$> volume_mounts (build_volumes_loop index mounts [] [])).
Proof.
  revert index. induction mounts as [|m rest IH]; intros i; [done|].
  rewrite build_volumes_loop_cons. cbn [volumes volume_mounts].
  rewrite fmap_cons, volume_mount_name.
  destruct (volume_def i m) as [v|] eqn:Hv.
  - simpl. rewrite (volume_def_name _ _ _ Hv). by apply sublist_skip.
  - simpl. by apply sublist_cons.
Qed.

Lemma mount_name_valid index m : Spec.name_re (mount_name index m) = true.
Proof. apply sanitize_name_valid. Qed.

Lemma volume_mounts_valid index mounts :
  Forall valid_entry_name (volume_mounts (build_volumes_loop index mounts [] [])).
Proof.
  revert index. induction mounts as [|m rest IH]; intros i; [constructor|].
  rewrite build_volumes_loop_cons. constructor; [|apply IH].
  exists (mount_name i m). split; [apply volume_mount_name|apply mount_name_valid].
Qed.

Lemma volumes_valid index mounts :
  Forall valid_entry_name (volumes (build_volumes_loop index mounts [] [])).
Proof.
  revert index. induction mounts as [|m rest IH]; intros i; [constructor|].
  rewrite build_volumes_loop_cons. cbn [volumes].
  destruct (volume_def i m) as [v|] eqn:Hv; simpl; [|apply IH].
  constructor; [|apply IH].
  exists (mount_name i m). split; [by apply volume_def_name|apply mount_name_valid].
Qed.

End VolumesMore.

(** X3: [build_volumes] returns one volume mount per mount and never a
    volume without its volume mount: the names of the volumes are, in
    order, a sub-list of the names of the volume mounts. *)
Theorem volumes_within_mounts (mounts : list mount) :
  length (volume_mounts (build_volumes mounts)) = length mounts /\
  sublist (entry_name <$> volumes (build_volumes mounts))
          (entry_name <$> volume_mounts (build_volumes mounts)).
Proof. split; [apply volume_mounts_length|apply volume_names_sublist]. Qed.

(** X4: every volume and every volume mount [build_volumes] returns has a
    name, and the name matches the pattern of resource names, whatever the
    descriptors hold. *)
Theorem build_volumes_names_valid (mounts : list mount) :
  Forall valid_entry_name (volume_mounts (build_volumes mounts)) /\
  Forall valid_entry_name (volumes (build_volumes mounts)).
Proof. split; [apply volume_mounts_valid|apply volumes_valid]. Qed.

(** ** PortMapper: when it raises *)

Section PortsMore.

Lemma int_raises s e : Py.int s = Raise e -> e = ValueError.
Proof.
  unfold Py.int.
  destruct (Py.strip_if Py.is_space s) as [|c t].
  - simpl. congruence.
  - assert (forall (f : Z -> result Z) o,
              (forall z, f z <> Raise e) ->
              from_option f (Raise ValueError) o = Raise e -> e = ValueError) as A.
    { intros f [z|] Hf; simpl; [by intros ?%Hf|congruence]. }
    destruct c as [[] [] [] [] [] [] [] []]; by apply A.
Qed.

Lemma accepted_Ok s : accepted s = true <-> exists n, Py.int s = Ok n.
Proof.
  unfold accepted. destruct (Py.int s) as [n|e]; split; try done.
  - by exists n.
  - by intros [? ?].
Qed.

Lemma accepted_Raise s : accepted s = false <-> Py.int s = Raise ValueError.
Proof.
  unfold accepted. destruct (Py.int s) as [n|e] eqn:E; split; try done.
  intros _. by rewrite (int_raises _ _ E).
Qed.

(** One turn of the loop: an item that is not readable raises
    [ValueError], any other yields an entry or is passed over. *)
Lemma port_entry_readable exposed bindings :
  if readable (exposed, bindings)
  then exists entry, port_entry exposed bindings = Ok entry
  else port_entry exposed bindings = Raise ValueError.
Proof.
  unfold readable, port_entry. simpl fst. simpl snd.
  destruct (Py.unpack2 (Py.split "/" exposed)) as [[a b]|e] eqn:E.
  - destruct (accepted a) eqn:Ha; simpl.
    + apply accepted_Ok in Ha as [n Hn]. rewrite Hn. simpl.
      destruct bindings as [[|bd l]|]; simpl; eauto.
      destruct (truthy (HostPort bd)) as [h|]; simpl; eauto.
      destruct (accepted h) eqn:Hh.
      * apply accepted_Ok in Hh as [p Hp]. rewrite Hp. simpl. eauto.
      * apply accepted_Raise in Hh. by rewrite Hh.
    + apply accepted_Raise in Ha. by rewrite Ha.
  - rewrite (unpack2_Raise _ _ E). eauto.
Qed.

Lemma collect_ports_loop_readable items :
  if forallb readable items
  then exists ports, collect_ports_loop items [] = Ok ports
  else collect_ports_loop items [] = Raise ValueError.
Proof.
  induction items as [|[exposed bindings] rest IH]; [by exists []|].
  rewrite collect_ports_loop_cons. cbn [forallb].
  pose proof (port_entry_readable exposed bindings) as H.
  destruct (readable (exposed, bindings)).
  - destruct H as [entry ->]. simpl.
    destruct (forallb readable rest).
    + destruct IH as [ports ->]. simpl. eauto.
    + by rewrite IH.
  - by rewrite H.
Qed.

End PortsMore.

(** X5: [collect_ports] returns a list exactly when, for every key that
    splits into two parts, [int] accepts the port part and, where the
    first binding declares a host port, that host port; otherwise it
    raises [ValueError], and it never raises anything else. *)
Theorem collect_ports_outcome (port_map : option port_map) :
  if forallb readable (default [] port_map)
  then exists ports, collect_ports port_map = Ok ports
  else collect_ports port_map = Raise ValueError.
Proof.
  destruct port_map as [items|]; [|by exists []].
  rewrite collect_ports_Some. apply collect_ports_loop_readable.
Qed.

Lemma collect_ports_outcome_witness :
  collect_ports (Some [("80/tcp", published "8080"); ("http/tcp", unpublished)])
  = Raise ValueError.
Proof.
  exact (collect_ports_outcome
           (Some [("80/tcp", published "8080"); ("http/tcp", unpublished)])).
Defined.

(** ** ManifestBuilder: failure, optional keys, fixed fields *)

Section ManifestMore.

Lemma dict_get_set_ne k k' v d :
  k <> k' -> dict_get k (dict_set k' v d) = dict_get k d.
Proof.
  intros Hne. induction d as [|[k0 v0] r IH]; simpl.
  - destruct (String.eqb_spec k' k); congruence.
  - destruct (String.eqb_spec k0 k') as [->|Hk]; simpl.
    + destruct (String.eqb_spec k' k); congruence.
    + by rewrite IH.
Qed.

Lemma mapM_cons_Ok {A B} (f : A -> result B) x l k :
  mapM f (x :: l) = Ok k -> exists y k', k = y :: k'.
Proof.
  simpl. destruct (f x) as [y|]; simpl; [|done].
  destruct (mapM f l) as [k'|]; simpl; [|done]. intros [= <-]. eauto.
Qed.

Lemma container_ports_of_collect cd ports :
  collect_ports (exposure_map cd) = Ok ports ->
  exists container_ports,
    mapM container_port ports = Ok container_ports /\
    Forall2 container_port_of ports container_ports.
Proof.
  intros Hports.
  assert (Forall2 port_of (exposed_items cd) ports) as Hof.
  { unfold exposed_items. destruct (exposure_map cd) as [items|].
    - rewrite collect_ports_Some in Hports. by apply collect_ports_loop_Ok.
    - injection Hports as <-. constructor. }
  destruct (container_ports_ports _ _ Hof) as (cps & E & Hcp & _). eauto.
Qed.

Lemma container_spec_of_keys cfg name image env_vars mounts ports cs :
  container_spec_of cfg name image env_vars mounts ports = Ok cs ->
  dict_get "name" cs = Some (VStr name) /\
  dict_get "image" cs = Some (VStr image) /\
  optional_key "args" (VStr <$> default [] (Cmd cfg)) cs /\
  optional_key "command" (VStr <$> default [] (Entrypoint cfg)) cs /\
  optional_key "env" env_vars cs /\
  optional_key "volumeMounts" (volume_mounts mounts) cs /\
  exists container_ports,
    mapM container_port ports = Ok container_ports /\
    optional_key "ports" container_ports cs.
Proof.
  unfold container_spec_of, optional_key.
  destruct ports as [|p ps].
  - destruct (Cmd cfg) as [[|a l]|], (Entrypoint cfg) as [[|b k]|],
      env_vars as [|e es], (volume_mounts mounts) as [|vm vms];
      cbn [nonempty default]; intros [= <-];
      (repeat split; try done); by exists [].
  - destruct (mapM container_port (p :: ps)) as [cps|] eqn:Hcps.
    + destruct (mapM_cons_Ok _ _ _ _ Hcps) as (y & k' & ->).
      destruct (Cmd cfg) as [[|a l]|], (Entrypoint cfg) as [[|b k]|],
        env_vars as [|e es], (volume_mounts mounts) as [|vm vms];
        cbn [nonempty default mbind result_bind]; intros [= <-];
        (repeat split; try done); by exists (y :: k').
    + cbn [nonempty mbind result_bind]. discriminate.
Qed.

Lemma deployment_of_fields name ns cs mounts :
  get_in ["metadata"; "name"] (deployment_of name ns cs mounts) = Some (VStr name) /\
  get_in ["metadata"; "namespace"] (deployment_of name ns cs mounts) = Some (VStr ns) /\
  get_in ["spec"; "replicas"] (deployment_of name ns cs mounts) = Some (VInt 1) /\
  get_in ["spec"; "selector"; "matchLabels"] (deployment_of name ns cs mounts) =
    Some (VDict [("app", VStr name)]) /\
  get_in ["spec"; "template"; "spec"; "volumes"] (deployment_of name ns cs mounts) =
    (if nonempty (volumes mounts) then Some (VList (volumes mounts)) else None).
Proof. unfold deployment_of. by destruct (volumes mounts). Qed.

Lemma transform_env_length env_list env_vars :
  transform_env env_list = Ok env_vars -> length env_vars = length env_list.
Proof.
  destruct (transform_env_loop_spec env_list []) as (es & E & H).
  unfold transform_env. rewrite E. intros [= <-]. simpl.
  symmetry. by eapply Forall2_length.
Qed.

End ManifestMore.

(** X6: on a document of the record type, in which every key the builder
    reads is absent or holds a value of its type (none holds null),
    [build_k8s_documents] raises exactly when [collect_ports] raises on
    the exposure map of the document, and then with the same exception;
    on such a document nothing else in the builder fails. *)
Theorem build_k8s_documents_raises_iff (cd : container_details)
    (namespace : string) (e : exn) :
  build_k8s_documents cd namespace = Raise e <->
  collect_ports (exposure_map cd) = Raise e.
Proof.
  destruct (collect_ports (exposure_map cd)) as [ports|e'] eqn:Hports.
  - destruct (build_k8s_documents_Ok cd namespace ports Hports)
      as (env_vars & cs & _ & _ & E & _).
    rewrite E. split; discriminate.
  - destruct (transform_env_loop_spec
                (default [] (Env (default no_config (Config cd)))) [])
      as (env_vars & Henv & _).
    unfold build_k8s_documents. fold (exposure_map cd).
    unfold transform_env. rewrite Henv. simpl. rewrite Hports. simpl.
    split; congruence.
Qed.

Lemma build_k8s_documents_raises_iff_witness :
  build_k8s_documents (container_on "web" (Some [("http/tcp", unpublished)])) "default"
  = Raise ValueError.
Proof.
  apply (proj2 (build_k8s_documents_raises_iff
                  (container_on "web" (Some [("http/tcp", unpublished)]))
                  "default" ValueError)).
  reflexivity.
Defined.

(** X7: the container spec of the Deployment always has [name] and
    [image]; [args], [command], [env], [volumeMounts] and [ports] are
    present with their list (the command, the entry point, the pairs of
    the environment, the volume mounts, one container port per derived
    port) when that list is not empty, and absent otherwise; the pod spec
    has [volumes] on the same terms.  No key is ever given an empty
    list. *)
Theorem build_k8s_documents_optional_keys (cd : container_details)
    (namespace : string) (ports : list value) :
  collect_ports (exposure_map cd) = Ok ports ->
  let cfg := default no_config (Config cd) in
  let mounts := build_volumes (default [] (Mounts cd)) in
  exists deployment rest container_spec env_vars container_ports,
    build_k8s_documents cd namespace = Ok (deployment :: rest) /\
    get_in ["spec"; "template"; "spec"; "containers"] deployment =
      Some (VList [VDict container_spec]) /\
    transform_env (default [] (Env cfg)) = Ok env_vars /\
    length env_vars = length (default [] (Env cfg)) /\
    Forall2 container_port_of ports container_ports /\
    dict_get "name" container_spec = Some (VStr (container_name_of cd)) /\
    dict_get "image" container_spec =
      Some (VStr (default "image:latest" (Image cfg))) /\
    optional_key "args" (VStr <$> default [] (Cmd cfg)) container_spec /\
    optional_key "command" (VStr <$> default [] (Entrypoint cfg)) container_spec /\
    optional_key "env" env_vars container_spec /\
    optional_key "volumeMounts" (volume_mounts mounts) container_spec /\
    optional_key "ports" container_ports container_spec /\
    get_in ["spec"; "template"; "spec"; "volumes"] deployment =
      (if nonempty (volumes mounts) then Some (VList (volumes mounts)) else None).
Proof.
  intros Hports cfg mounts.
  destruct (build_k8s_documents_Ok cd namespace ports Hports)
    as (env_vars & cs & Henv & Hcs & Hdocs & _).
  destruct (container_spec_of_keys _ _ _ _ _ _ _ Hcs)
    as (Hname & Himage & Hargs & Hcommand & Hen & Hvm & cps & Hcps & Hp).
  destruct (container_ports_of_collect cd ports Hports) as (cps' & Hcps' & Hof).
  assert (cps' = cps) as -> by congruence.
  destruct (deployment_of_fields (container_name_of cd) namespace cs mounts)
    as (_ & _ & _ & _ & Hvolumes).
  eexists _, _, cs, env_vars, cps. split; [exact Hdocs|].
  split; [apply deployment_of_containers|].
  split; [exact Henv|]. split; [by apply transform_env_length|].
  split; [exact Hof|].
  split; [exact Hname|]. split; [exact Himage|]. split; [exact Hargs|].
  split; [exact Hcommand|]. split; [exact Hen|]. split; [exact Hvm|].
  split; [exact Hp|exact Hvolumes].
Qed.

Lemma build_k8s_documents_optional_keys_witness :
  exists deployment rest container_spec,
    build_k8s_documents (container_on "web" None) "default" = Ok (deployment :: rest) /\
    get_in ["spec"; "template"; "spec"; "containers"] deployment =
      Some (VList [VDict container_spec]) /\
    dict_get "args" container_spec = None /\
    dict_get "ports" container_spec = None /\
    get_in ["spec"; "template"; "spec"; "volumes"] deployment = None.
Proof.
  destruct (build_k8s_documents_optional_keys (container_on "web" None) "default" []
              eq_refl)
    as (deployment & rest & cs & env_vars & cps & Hdocs & Hcs & _ & _ & Hof & _ & _
        & Hargs & _ & _ & _ & Hports & Hvolumes).
  exists deployment, rest, cs. split; [exact Hdocs|]. split; [exact Hcs|].
  split; [exact Hargs|]. split; [|exact Hvolumes].
  apply Forall2_nil_inv_l in Hof as ->. exact Hports.
Defined.

(** X8: the first document is of kind [Deployment], is named after the
    container, has one replica, and selects the label [app:
    container-name], which is also the label it gives its pod template;
    the namespace is passed to the Deployment and to the Service as it was
    given, without being sanitized. *)
Theorem build_k8s_documents_fixed_fields (cd : container_details)
    (namespace : string) (documents : list value) :
  build_k8s_documents cd namespace = Ok documents ->
  exists deployment,
    head documents = Some deployment /\
    get_in ["kind"] deployment = Some (VStr "Deployment") /\
    get_in ["metadata"; "name"] deployment = Some (VStr (container_name_of cd)) /\
    get_in ["spec"; "replicas"] deployment = Some (VInt 1) /\
    get_in ["spec"; "selector"; "matchLabels"] deployment =
      Some (VDict [("app", VStr (container_name_of cd))]) /\
    get_in ["spec"; "template"; "metadata"; "labels"] deployment =
      Some (VDict [("app", VStr (container_name_of cd))]) /\
    Forall (fun doc => get_in ["metadata"; "namespace"] doc = Some (VStr namespace))
           documents.
Proof.
  intros Hdocs.
  destruct (collect_ports (exposure_map cd)) as [ports|e] eqn:Hports.
  - destruct (build_k8s_documents_Ok cd namespace ports Hports)
      as (env_vars & cs & _ & _ & E & _).
    rewrite E in Hdocs. injection Hdocs as <-.
    destruct (deployment_of_fields (container_name_of cd) namespace cs
                (build_volumes (default [] (Mounts cd))))
      as (Hname & Hns & Hrep & Hsel & _).
    eexists. split; [reflexivity|]. split; [apply deployment_of_kind|].
    split; [exact Hname|]. split; [exact Hrep|]. split; [exact Hsel|].
    split; [apply deployment_of_labels|].
    constructor; [exact Hns|]. destruct (nonempty ports); by repeat constructor.
  - assert (build_k8s_documents cd namespace = Raise e) as E.
    { destruct (transform_env_loop_spec
                  (default [] (Env (default no_config (Config cd)))) [])
        as (env_vars & Henv & _).
      unfold build_k8s_documents. fold (exposure_map cd).
      unfold transform_env. rewrite Henv. simpl. by rewrite Hports. }
    congruence.
Qed.

Lemma build_k8s_documents_fixed_fields_witness :
  exists deployment service,
    build_k8s_documents (container_on "web" (Some [("80/tcp", unpublished)]))
      "Team_A" = Ok [deployment; service] /\
    get_in ["metadata"; "namespace"] service = Some (VStr "Team_A").
Proof.
  destruct (build_k8s_documents_fixed_fields
              (container_on "web" (Some [("80/tcp", unpublished)])) "Team_A" _ eq_refl)
    as (deployment & _ & _ & _ & _ & _ & _ & Hns).
  eexists _, _. split; [reflexivity|].
  apply Forall_cons in Hns as [_ Hns]. by apply Forall_cons in Hns as [Hns _].
Defined.

(** ** The file a manifest is saved to *)

Section Filename.

Lemma filename_chars_no_slash s :
  all_chars filename_char s = true -> Py.char_in s "/" = false.
Proof.
  induction s as [|c t IH]; simpl; [done|].
  intros [Hc ->%IH]%andb_true_iff. rewrite orb_false_r.
  destruct c as [[] [] [] [] [] [] [] []]; vm_compute in Hc; try discriminate Hc;
    reflexivity.
Qed.

Lemma name_char_filename_char c : name_char c = true -> filename_char c = true.
Proof. unfold filename_char. by intros ->. Qed.

End Filename.

(** X9: the file name the terminal interface saves a manifest under is the
    sanitized container name followed by [-manifest.yaml]; it consists of
    the characters [[a-z0-9.-]] only, so it holds no path separator and
    cannot leave the working directory. *)
Theorem manifest_filename_safe (cd : container_details) :
  manifest_filename cd = container_name_of cd +:+ "-manifest.yaml" /\
  all_chars filename_char (manifest_filename cd) = true /\
  Py.char_in (manifest_filename cd) "/" = false.
Proof.
  split; [done|].
  assert (all_chars filename_char (manifest_filename cd) = true) as Hall.
  { unfold manifest_filename. rewrite all_chars_app. apply andb_true_iff. split; [|done].
    apply (all_chars_impl _ _ _ name_char_filename_char).
    by destruct (name_re_inv _ (sanitize_name_valid
      (or_str (Hostname (default no_config (Config cd))) (default "app" (Name cd)))))
      as (_ & Hall & _). }
  split; [done|]. by apply filename_chars_no_slash.
Qed.

(** * The Portainer client *)

Section ClientInit.

Import Client.

Lemma drop_end_split P s :
  exists t, s = Py.drop_end P s +:+ t /\ all_chars P t = true.
Proof.
  induction s as [|c s IH]; [by exists EmptyString|].
  destruct IH as (t & Hs & Ht). simpl.
  destruct (Py.drop_end P s) as [|d u] eqn:E.
  - assert (s = t) as -> by exact Hs. destruct (P c) eqn:Hc.
    + exists (String c t). simpl. by rewrite Hc, Ht.
    + by exists t.
  - exists t. split; [|done]. rewrite Hs at 1. done.
Qed.

Lemma drop_end_snoc P s c :
  P c = true -> Py.drop_end P (s +:+ String c EmptyString) = Py.drop_end P s.
Proof.
  intros Hc. induction s as [|d s IH].
  - simpl. by rewrite Hc.
  - change (String d s +:+ String c EmptyString)
      with (String d (s +:+ String c EmptyString)).
    simpl. by rewrite IH.
Qed.

Lemma append_length a b : String.length (a +:+ b) = String.length a + String.length b.
Proof.
  induction a as [|c a IH]; [done|].
  change (String c a +:+ b) with (String c (a +:+ b)). simpl. by rewrite IH.
Qed.

Lemma drop_end_no_suffix P s u c :
  P c = true -> Py.drop_end P s = u +:+ String c EmptyString -> False.
Proof.
  intros Hc E.
  pose proof (drop_end_idem P s) as Hidem. rewrite E, drop_end_snoc in Hidem by done.
  pose proof (drop_end_length P u) as Hlen. rewrite Hidem, append_length in Hlen.
  simpl in Hlen. lia.
Qed.

Lemma init_scheme net url eid api_key username password :
  PyText.startswith "http://" url || PyText.startswith "https://" url = true ->
  __init__ net url eid api_key username password =
  let base_url := PyText.rstrip "/" url in
  match truthy api_key with
  | Some api_key =>
      Return {| base_url := base_url; endpoint_id := eid;
                headers := [("X-API-Key", api_key)] |}
  | None =>
      match truthy username, truthy password with
      | Some username, Some password =>
          token ← _login net base_url username password;
          Return {| base_url := base_url; endpoint_id := eid;
                    headers := [("Authorization", "Bearer " +:+ token)] |}
      | _, _ =>
          Throw (ValueError
                   "Provide either an API key or username/password for Portainer")
      end
  end.
Proof. intros H. unfold __init__. by rewrite H. Qed.

End ClientInit.

(** X10: the constructor raises the "must include http:// or https://"
    error exactly for the URLs that start with neither scheme, whatever
    the credentials are and whatever the server would answer. *)
Theorem init_rejects_url (net : Client.server) (url : string) (eid : Z)
    (api_key username password : option string) :
  Client.__init__ net url eid api_key username password =
    Client.Throw (Client.ValueError "Portainer URL must include http:// or https://")
  <->
  PyText.startswith "http://" url = false /\ PyText.startswith "https://" url = false.
Proof.
  rewrite <- orb_false_iff.
  destruct (PyText.startswith "http://" url || PyText.startswith "https://" url) eqn:H.
  - rewrite init_scheme by done. cbv zeta. split; [|done].
    destruct (truthy api_key); [done|].
    destruct (truthy username), (truthy password); try done.
    unfold Client._login.
    destruct (negb _); [done|]. by destruct (Client.auth_jwt _).
  - unfold Client.__init__. by rewrite H.
Qed.

Lemma init_rejects_url_witness :
  Client.__init__ (serving "abc" []) "portainer.local" 1 (Some "key") None None =
  Client.Throw (Client.ValueError "Portainer URL must include http:// or https://").
Proof.
  by apply (proj2 (init_rejects_url (serving "abc" []) "portainer.local" 1
                     (Some "key") None None)).
Defined.

(** X11: with a URL that has a scheme and an API key that is not empty,
    the constructor sends no request and ignores the user name and the
    password: the client has the [X-API-Key] header and nothing else. *)
Theorem init_api_key_first (net : Client.server) (url : string) (eid : Z)
    (api_key : string) (username password : option string) :
  PyText.startswith "http://" url || PyText.startswith "https://" url = true ->
  api_key <> EmptyString ->
  Client.__init__ net url eid (Some api_key) username password =
  Client.Return {| Client.base_url := PyText.rstrip "/" url;
                   Client.endpoint_id := eid;
                   Client.headers := [("X-API-Key", api_key)] |}.
Proof.
  intros H Hk. rewrite init_scheme by done. by destruct api_key.
Qed.

Lemma init_api_key_first_witness :
  Client.__init__ (serving "abc" []) "https://portainer.local/" 2
    (Some "key") (Some "admin") None =
  Client.Return {| Client.base_url := "https://portainer.local";
                   Client.endpoint_id := 2;
                   Client.headers := [("X-API-Key", "key")] |}.
Proof.
  by apply (init_api_key_first (serving "abc" []) "https://portainer.local/" 2 "key"
              (Some "admin") None).
Defined.

(** X12: without an API key, a user name without a password (or a password
    without a user name, or neither) makes the constructor raise
    [ValueError]; no request is sent. *)
Theorem init_needs_credentials (net : Client.server) (url : string) (eid : Z)
    (api_key username password : option string) :
  PyText.startswith "http://" url || PyText.startswith "https://" url = true ->
  truthy api_key = None ->
  truthy username = None \/ truthy password = None ->
  Client.__init__ net url eid api_key username password =
  Client.Throw
    (Client.ValueError "Provide either an API key or username/password for Portainer").
Proof.
  intros H Hk Hup. rewrite init_scheme by done. cbv zeta. rewrite Hk.
  destruct Hup as [-> | ->]; [done|]. by destruct (truthy username).
Qed.

Lemma init_needs_credentials_witness :
  Client.__init__ (serving "abc" []) "http://portainer.local" 1
    (Some "") (Some "admin") None =
  Client.Throw
    (Client.ValueError "Provide either an API key or username/password for Portainer").
Proof.
  apply (init_needs_credentials (serving "abc" []) "http://portainer.local" 1
           (Some "") (Some "admin") None);
    [reflexivity|reflexivity|by right].
Defined.

(** X13: with a user name and a password and no API key, the constructor
    sends one login request, to the normalized URL followed by
    [/api/auth]; a status other than 200 raises [RuntimeError] with the
    status and the body, a status 200 whose body has a [jwt] gives the
    client the header [Authorization: Bearer jwt]. *)
Theorem init_login (net : Client.server) (url : string) (eid : Z)
    (api_key : option string) (username password : string) :
  PyText.startswith "http://" url || PyText.startswith "https://" url = true ->
  truthy api_key = None ->
  username <> EmptyString -> password <> EmptyString ->
  let base := PyText.rstrip "/" url in
  let response := Client.post_auth net (base +:+ "/api/auth") username password in
  (Client.auth_status_code response <> 200%Z ->
   Client.__init__ net url eid api_key (Some username) (Some password) =
   Client.Throw
     (Client.RuntimeError
        ("Failed to authenticate: HTTP " +:+
         PyText.str_int (Client.auth_status_code response) +:+ " " +:+
         Client.auth_text response))) /\
  (forall jwt,
      Client.auth_status_code response = 200%Z ->
      Client.auth_jwt response = Some jwt ->
      Client.__init__ net url eid api_key (Some username) (Some password) =
      Client.Return {| Client.base_url := base; Client.endpoint_id := eid;
                       Client.headers := [("Authorization", "Bearer " +:+ jwt)] |}).
Proof.
  intros H Hk Hu Hp base response.
  rewrite init_scheme by done. cbv zeta. rewrite Hk.
  destruct username as [|c u]; [done|]. destruct password as [|d p]; [done|].
  cbn [truthy]. unfold Client._login. fold base. fold response. split.
  - intros Hs. apply Z.eqb_neq in Hs. by rewrite Hs.
  - intros jwt Hs Hj. by rewrite Hs, Hj.
Qed.

(** X14: the URL a client keeps is the given URL without its trailing
    slashes: the given URL is the kept one followed by slashes only, and
    the kept one does not end with a slash. *)
Theorem init_base_url (net : Client.server) (url : string) (eid : Z)
    (api_key username password : option string) (c : Client.client) :
  Client.__init__ net url eid api_key username password = Client.Return c ->
  (exists slashes,
      url = Client.base_url c +:+ slashes /\
      all_chars (Py.char_in "/") slashes = true) /\
  (forall s, Client.base_url c <> s +:+ "/").
Proof.
  intros Hinit.
  assert (Client.base_url c = PyText.rstrip "/" url) as ->.
  { unfold Client.__init__ in Hinit.
    destruct (negb _); [done|].
    destruct (truthy api_key); [by injection Hinit as <-|].
    destruct (truthy username), (truthy password); try done.
    destruct (Client._login _ _ _ _); [|done]. by injection Hinit as <-. }
  split; [apply drop_end_split|].
  intros s E. exact (drop_end_no_suffix (Py.char_in "/") url s "/" eq_refl E).
Qed.

Lemma init_login_witness :
  Client.__init__ (serving "abc" []) "http://portainer.local/" 1 None
    (Some "admin") (Some "secret") =
  Client.Return {| Client.base_url := "http://portainer.local";
                   Client.endpoint_id := 1;
                   Client.headers := [("Authorization", "Bearer abc")] |}.
Proof.
  apply (proj2 (init_login (serving "abc" []) "http://portainer.local/" 1 None
                  "admin" "secret" eq_refl eq_refl
                  ltac:(discriminate) ltac:(discriminate)) "abc");
    reflexivity.
Defined.

Lemma init_base_url_witness :
  exists slashes,
    "https://portainer.local//" = "https://portainer.local" +:+ slashes /\
    all_chars (Py.char_in "/") slashes = true.
Proof.
  apply (init_base_url (serving "abc" []) "https://portainer.local//" 1
           (Some "key") None None
           {| Client.base_url := "https://portainer.local"; Client.endpoint_id := 1;
              Client.headers := [("X-API-Key", "key")] |}).
  reflexivity.
Defined.

(** ** Resolving a container reference *)

Section Resolve.

Import Client.

Lemma resolve_loop_matching container_ref containers matches :
  resolve_loop container_ref containers matches =
  matches ++ matching container_ref containers.
Proof.
  unfold matching. revert matches.
  induction containers as [|c rest IH]; intros matches; simpl.
  - by rewrite app_nil_r.
  - rewrite filter_cons. destruct (matches_ref container_ref c) eqn:Hc.
    + rewrite decide_True by done. rewrite IH, fmap_cons, <- app_assoc. done.
    + rewrite decide_False by (by intros ?). apply IH.
Qed.

Lemma raise_for_status_ok status_code :
  raise_for_status status_code = Return tt <-> status_ok status_code.
Proof.
  unfold raise_for_status, status_ok.
  destruct (400 <=? status_code)%Z eqn:H1, (status_code <? 600)%Z eqn:H2; simpl;
    split; try done; try lia.
Qed.

Lemma raise_for_status_error status_code :
  ~ status_ok status_code ->
  raise_for_status status_code = Throw (HTTPError status_code).
Proof.
  unfold raise_for_status, status_ok. intros H.
  destruct (400 <=? status_code)%Z eqn:H1, (status_code <? 600)%Z eqn:H2; simpl;
    try done; exfalso; apply H; lia.
Qed.

Lemma resolve_container_id_ok net self container_ref :
  status_ok (list_status_code (listed net self)) ->
  resolve_container_id net self container_ref =
  match matching container_ref (list_json (listed net self)) with
  | [] =>
      Throw (RuntimeError ("No container matching '" +:+ container_ref +:+
                           "' on endpoint " +:+ PyText.str_int (endpoint_id self)))
  | [container_id] => Return container_id
  | ids =>
      Throw (RuntimeError ("Multiple containers match '" +:+ container_ref +:+ "': " +:+
                           PyText.join ", " ids))
  end.
Proof.
  intros Hok%raise_for_status_ok. unfold resolve_container_id.
  fold (list_url self). fold (listed net self). rewrite Hok.
  cbn [mbind outcome_bind]. rewrite resolve_loop_matching. cbn [app].
  by destruct (matching _ _) as [|x [|y l]].
Qed.

Lemma lstrip_head chars s :
  match PyText.lstrip chars s with
  | EmptyString => True
  | String c _ => Py.char_in chars c = false
  end.
Proof.
  unfold PyText.lstrip. induction s as [|c t IH]; simpl; [done|].
  destruct (Py.char_in chars c) eqn:Hc; [done|]. by rewrite Hc.
Qed.

End Resolve.

(** X15: [resolve_container_id] returns an id exactly when the list
    request is answered without an error status and exactly one container
    of the list matches the reference (its Id starts with the reference,
    or the reference is one of its names without the leading slashes); the
    id returned is that container's. *)
Theorem resolve_container_id_unique (net : Client.server) (self : Client.client)
    (container_ref container_id : string) :
  Client.resolve_container_id net self container_ref = Client.Return container_id <->
  status_ok (Client.list_status_code (listed net self)) /\
  matching container_ref (Client.list_json (listed net self)) = [container_id].
Proof.
  destruct (decide (status_ok (Client.list_status_code (listed net self)))) as [Hok|Hbad].
  - rewrite resolve_container_id_ok by done.
    destruct (matching _ _) as [|x [|y l]].
    + split; [done|by intros [_ ?]].
    + split; [by intros [= ->]|by intros [_ [= ->]]].
    + split; [done|by intros [_ ?]].
  - split; [|by intros [? _]].
    unfold Client.resolve_container_id. fold (list_url self). fold (listed net self).
    by rewrite raise_for_status_error.
Qed.

Lemma resolve_container_id_unique_witness :
  Client.resolve_container_id (serving "abc" [web_container; db_container])
    api_client "db" = Client.Return "4f77e0".
Proof.
  apply (proj2 (resolve_container_id_unique
                  (serving "abc" [web_container; db_container]) api_client "db" "4f77e0")).
  split; [|reflexivity]. unfold status_ok. simpl. lia.
Defined.

(** X16: when two or more containers of the list match, the method raises
    [RuntimeError] and names every matching id, in the order of the list. *)
Theorem resolve_container_id_ambiguous (net : Client.server) (self : Client.client)
    (container_ref : string) :
  status_ok (Client.list_status_code (listed net self)) ->
  2 <= length (matching container_ref (Client.list_json (listed net self))) ->
  Client.resolve_container_id net self container_ref =
  Client.Throw
    (Client.RuntimeError
       ("Multiple containers match '" +:+ container_ref +:+ "': " +:+
        PyText.join ", " (matching container_ref (Client.list_json (listed net self))))).
Proof.
  intros Hok Hlen. rewrite resolve_container_id_ok by done.
  destruct (matching _ _) as [|x [|y l]]; simpl in Hlen; [lia|lia|done].
Qed.

Lemma resolve_container_id_ambiguous_witness :
  Client.resolve_container_id (serving "abc" [web_container; db_container])
    api_client "4f" =
  Client.Throw (Client.RuntimeError "Multiple containers match '4f': 4f2a9c, 4f77e0").
Proof.
  apply (resolve_container_id_ambiguous
           (serving "abc" [web_container; db_container]) api_client "4f").
  - unfold status_ok. simpl. lia.
  - simpl. lia.
Defined.

(** X17: the empty reference is a prefix of every Id, so it matches every
    container: it resolves exactly when the list holds a single container. *)
Theorem resolve_container_id_empty_ref (net : Client.server) (self : Client.client)
    (container_id : string) :
  status_ok (Client.list_status_code (listed net self)) ->
  (Client.resolve_container_id net self EmptyString = Client.Return container_id <->
   Client.Id <$> Client.list_json (listed net self) = [container_id]).
Proof.
  intros Hok.
  assert (forall l, matching EmptyString l = Client.Id <$> l) as Hall.
  { unfold matching. induction l as [|c l IH]; [done|].
    rewrite filter_cons, decide_True by done. by rewrite !fmap_cons, IH. }
  rewrite resolve_container_id_ok, Hall by done.
  destruct (Client.Id <$> _) as [|x [|y l]].
  - split; done.
  - split; by intros [= ->].
  - split; done.
Qed.

Lemma resolve_container_id_empty_ref_witness :
  Client.resolve_container_id (serving "abc" [web_container]) api_client EmptyString
  = Client.Return "4f2a9c".
Proof.
  apply (proj2 (resolve_container_id_empty_ref
                  (serving "abc" [web_container]) api_client "4f2a9c"
                  ltac:(unfold status_ok; simpl; lia))).
  reflexivity.
Defined.

(** X18: the names are compared without their leading slashes, so a
    reference that itself begins with a slash never matches a container by
    name; it can only match as a prefix of an Id. *)
Theorem matches_ref_leading_slash (container_ref : string)
    (container : Client.container_summary) :
  PyText.startswith "/" container_ref = true ->
  Client.matches_ref container_ref container =
  PyText.startswith container_ref (Client.Id container).
Proof.
  intros Hslash. unfold Client.matches_ref.
  rewrite bool_decide_false; [apply orb_false_r|].
  intros (n & -> & _)%list_elem_of_fmap.
  pose proof (lstrip_head "/" n) as Hhead.
  destruct (PyText.lstrip "/" n) as [|c t]; [done|].
  cbn [PyText.startswith] in Hslash. cbn [Py.char_in] in Hhead.
  rewrite andb_true_r in Hslash.
  rewrite orb_false_r, Ascii.eqb_sym in Hhead. congruence.
Qed.

Lemma matches_ref_leading_slash_witness :
  Client.matches_ref "/web" web_container = false.
Proof.
  rewrite (matches_ref_leading_slash "/web" web_container eq_refl). reflexivity.
Defined.

(** * The serializer used when PyYAML is absent *)

Section Serializer.

(** Induction on a document, with the hypothesis for every item of a list
    and every value of a dict. *)
Lemma value_ind_deep (P : value -> Prop) :
  (forall b, P (VBool b)) -> (forall z, P (VInt z)) -> (forall s, P (VStr s)) ->
  (forall l, Forall P l -> P (VList l)) ->
  (forall d, Forall (fun kv => P (snd kv)) d -> P (VDict d)) ->
  forall v, P v.
Proof.
  intros HB HZ HS HL HD. fix IH 1.
  intros [b|z|s|l|d]; [apply HB|apply HZ|apply HS| |].
  - apply HL. induction l as [|x l IHl]; constructor; [apply IH|exact IHl].
  - apply HD. induction d as [|[k x] d IHd]; constructor; [apply IH|exact IHd].
Qed.

Lemma scalar_text_untyped v : scalar_text (untyped v) = scalar_text v.
Proof. by destruct v as [[]| | | |]. Qed.

Lemma dict_lines_untyped spacing (f g : value -> string) d :
  Forall (fun kv => f (untyped (snd kv)) = g (snd kv)) d ->
  dict_lines spacing f ((fun kv => (fst kv, untyped (snd kv))) <$> d) =
  dict_lines spacing g d.
Proof.
  induction 1 as [|[k v] d Hv _ IH]; [done|].
  rewrite fmap_cons. cbn [dict_lines fst snd].
  rewrite scalar_text_untyped, IH. simpl in Hv. by rewrite Hv.
Qed.

Lemma list_lines_untyped spacing (f g : value -> string) l :
  Forall (fun v => f (untyped v) = g v) l ->
  list_lines spacing f (untyped <$> l) = list_lines spacing g l.
Proof.
  induction 1 as [|v l Hv _ IH]; [done|].
  rewrite fmap_cons. cbn [list_lines].
  by rewrite scalar_text_untyped, IH, Hv.
Qed.

Lemma fallback_yaml_dump_untyped node :
  forall indent,
    _fallback_yaml_dump (untyped node) indent = _fallback_yaml_dump node indent.
Proof.
  induction node as [b|z|s|l IH|d IH] using value_ind_deep; intros indent.
  - by destruct b.
  - done.
  - done.
  - cbn [untyped _fallback_yaml_dump]. f_equal. apply list_lines_untyped.
    eapply Forall_impl; [exact IH|]. by intros v Hv.
  - cbn [untyped _fallback_yaml_dump]. f_equal. apply dict_lines_untyped.
    eapply Forall_impl; [exact IH|]. by intros kv Hv.
Qed.

End Serializer.

(** X19: the serializer used without PyYAML writes scalars without quotes
    or tags, so it cannot tell a string from the number or the truth value
    it spells: replacing, anywhere in the documents, every scalar by the
    string it prints as leaves the manifest unchanged. *)
Theorem dump_yaml_untyped (documents : list value) :
  dump_yaml None (untyped <$> documents) = dump_yaml None documents.
Proof.
  unfold dump_yaml. f_equal. rewrite <- list_fmap_compose.
  apply list_fmap_ext. intros _ doc _. simpl.
  by rewrite fallback_yaml_dump_untyped.
Qed.

Example dump_yaml_env_value :
  dump_yaml None [VDict [("name", VStr "PORT"); ("value", VStr "8080")]] =
  dump_yaml None [VDict [("name", VStr "PORT"); ("value", VInt 8080)]].
Proof. reflexivity. Qed.

(** * Names that differ only in case *)

Lemma lower_char_idem c : Py.lower_char (Py.lower_char c) = Py.lower_char c.
Proof. by destruct c as [[] [] [] [] [] [] [] []]. Qed.

Lemma lower_idem s : Py.lower (Py.lower s) = Py.lower s.
Proof.
  unfold Py.lower. induction s as [|c t IH]; simpl; [done|].
  by rewrite lower_char_idem, IH.
Qed.

(** X20: [sanitize_name] does not see the case of letters: a name and its
    lower-cased form are given the same resource name, so two containers
    whose names differ only in case collide. *)
Theorem sanitize_name_ignores_case (name : string) :
  sanitize_name (Py.lower name) = sanitize_name name.
Proof. unfold sanitize_name. by rewrite lower_idem. Qed.
